(** * MinesClone: a shallow embedding of the game engine of [main.cpp]

    The engine is the part of the program between the command parser and
    the renderer: [outside], [count_neighbors], [Game], [is_won],
    [expand], [try_reveal], [try_set_flag], the command handlers [flag]
    and [reveal], [print_bombs_left] and the main loop.

    Conventions of the embedding.
    - [uint32_t] counters are integers in [Z] with the wrap-around modulo
      [2^32] written out ([u32]); [size_t] arithmetic wraps modulo [2^64].
    - Coordinates are the [int] values produced by [std::stoi]; they are
      kept in [Z].  The only arithmetic on them is [i + dir[0]] for a cell
      [(i, j)] that passed the [outside] test, which cannot overflow.
    - [std::vector<std::vector<Cell>>] is [list (list Cell)]. Reads
      [grid[i][j]] are always guarded by [outside] in the source and are
      modelled by the total lookup [!!!]; the one unguarded write (in
      [reveal]) is modelled with an explicit [OutOfRange] fault.
    - [expand] is recursive on a mutable grid; it is modelled with fuel
      and an [OutOfFuel] fault, and shown never to run out of fuel.
    - The text side ([to_command], [std::stoi], the handlers [flag] and
      [reveal] on words, [table], [accept_input], [prompt], the loop of
      [main], [print] and [operator<<]) is in module [Cli]; input is a
      list of lines. [from_cmd_ln_args] works on [float] and is left
      out. *)

From Stdlib Require Import ZArith Lia Bool List Ascii.
From stdpp Require Import base tactics option list strings.

Local Open Scope Z_scope.

(** ** Cells and grids *)

Inductive CellType := EMPTY | BOMB.

Record Cell := mkCell {
  type : CellType;
  is_flagged : bool;
  is_revealed : bool
}.

(** [Cell(CellType type)] *)
Definition new_cell (t : CellType) : Cell := mkCell t false false.

#[global] Instance Cell_inhabited : Inhabited Cell := populate (new_cell EMPTY).

Definition is_bomb (c : Cell) : bool :=
  match type c with BOMB => true | EMPTY => false end.

Abbreviation Grid := (list (list Cell)).

Definition dir4 : list (Z * Z) := [(0, 1); (1, 0); (0, -1); (-1, 0)].
Definition dir8 : list (Z * Z) :=
  [(0, 1); (1, 0); (0, -1); (-1, 0); (1, 1); (1, -1); (-1, 1); (-1, -1)].

Definition rows (grid : Grid) : nat := length grid.
(** [grid[0].size()] *)
Definition cols (grid : Grid) : nat := length (grid !!! 0%nat).

Definition outside (grid : Grid) (i j : Z) : bool :=
  (i <? 0) || (j <? 0) || (i >=? Z.of_nat (rows grid)) || (j >=? Z.of_nat (cols grid)).

(** [grid[i][j]], read after an [outside] test *)
Definition cell_at (grid : Grid) (i j : Z) : Cell :=
  (grid !!! Z.to_nat i) !!! Z.to_nat j.

(** [grid[i][j].field = v] *)
Definition set_cell (f : Cell -> Cell) (grid : Grid) (i j : Z) : Grid :=
  alter (alter f (Z.to_nat j)) (Z.to_nat i) grid.

Definition u32 (z : Z) : Z := z mod 2 ^ 32.
Definition u64 (z : Z) : Z := z mod 2 ^ 64.

Definition count_neighbors (grid : Grid) (i j : Z) (predicate : Cell -> bool) : Z :=
  if outside grid i j then 0
  else
    fold_left
      (fun result dir =>
         if negb (outside grid (i + dir.1) (j + dir.2))
            && predicate (cell_at grid (i + dir.1) (j + dir.2))
         then u32 (result + 1)
         else result)
      dir8 0.

Definition count_bomb_neighbors (grid : Grid) (i j : Z) : Z :=
  count_neighbors grid i j is_bomb.

Definition count_flagged_neighbors (grid : Grid) (i j : Z) : Z :=
  count_neighbors grid i j is_flagged.

(** ** The game *)

Inductive GameState := OVER | ACTIVE.

(** The [float bomb_likelihood] field is only read by [fill_grid]; the
    outcome of its comparisons is a parameter of [fill_grid] below. *)
Record Game := mkGame {
  count_bombs : Z;
  count_flagged : Z;
  count_revealed : Z;
  first_move : bool;
  state : GameState;
  grid : Grid
}.

Definition with_grid (game : Game) (g : Grid) : Game :=
  mkGame (count_bombs game) (count_flagged game) (count_revealed game)
         (first_move game) (state game) g.
Definition with_count_revealed (game : Game) (n : Z) : Game :=
  mkGame (count_bombs game) (count_flagged game) n
         (first_move game) (state game) (grid game).
Definition with_count_flagged (game : Game) (n : Z) : Game :=
  mkGame (count_bombs game) n (count_revealed game)
         (first_move game) (state game) (grid game).
Definition with_first_move (game : Game) (b : bool) : Game :=
  mkGame (count_bombs game) (count_flagged game) (count_revealed game)
         b (state game) (grid game).
Definition with_state (game : Game) (s : GameState) : Game :=
  mkGame (count_bombs game) (count_flagged game) (count_revealed game)
         (first_move game) s (grid game).

(** Number of cells of a grid that satisfy a predicate. *)
Definition count_row (p : Cell -> bool) (row : list Cell) : nat :=
  sum_list_with (fun c => Nat.b2n (p c)) row.
Definition count_cells (p : Cell -> bool) (grid : Grid) : nat :=
  sum_list_with (count_row p) grid.

(** [fill_grid]: [hit i j] is the outcome of the test
    [(rand() % 100) / 100.0f <= bomb_likelihood] drawn for cell [(i, j)]. *)
Definition fill_grid (m n : nat) (hit : nat -> nat -> bool) : Grid :=
  (fun i => (fun j => new_cell (if hit i j then BOMB else EMPTY)) <$> seq 0 n)
    <$> seq 0 m.

(** [Game::Game]. The member initialiser list has no entry for
    [first_move], so the member starts with an indeterminate value:
    [first_move0] stands for whatever the storage held. [count_bombs] is
    incremented once per cell made a [BOMB]. *)
Definition new_game (m n : nat) (hit : nat -> nat -> bool) (first_move0 : bool) : Game :=
  let g := fill_grid m n hit in
  mkGame (u32 (Z.of_nat (count_cells is_bomb g))) 0 0 first_move0 ACTIVE g.

Definition reset (c : Cell) : Cell := mkCell (type c) false false.

(** [Game::restart] *)
Definition restart (game : Game) : Game :=
  mkGame (count_bombs game) 0 0 true ACTIVE (fmap (M:=list) reset <$> grid game).

(** [is_won]: the right-hand side is computed in [size_t]. *)
Definition is_won (game : Game) : bool :=
  count_revealed game
  =? u64 (Z.of_nat (rows (grid game)) * Z.of_nat (cols (grid game)) - count_bombs game).

(** ** Faults *)

Inductive fault := OutOfFuel | OutOfRange.

Inductive result (A : Type) : Type :=
| Ok (a : A)
| Err (e : fault).
Arguments Ok {A} a.
Arguments Err {A} e.

#[global] Instance result_bind : MBind result := fun A B k m =>
  match m with
  | Ok a => k a
  | Err e => Err e
  end.
#[global] Instance result_ret : MRet result := fun A a => Ok a.

(** ** Revealing *)

Inductive PlayerMove := Success | NA | LosingMove | OutBounds.

Definition mark_revealed (c : Cell) : Cell := mkCell (type c) (is_flagged c) true.
Definition set_flagged (value : bool) (c : Cell) : Cell :=
  mkCell (type c) value (is_revealed c).
Definition set_type (t : CellType) (c : Cell) : Cell :=
  mkCell t (is_flagged c) (is_revealed c).

(** The guard at the top of [expand]. *)
Definition blocked (game : Game) (i j : Z) : bool :=
  outside (grid game) i j
  || is_bomb (cell_at (grid game) i j)
  || is_revealed (cell_at (grid game) i j)
  || is_flagged (cell_at (grid game) i j).

(** [game.grid[i][j].is_revealed = true; game.count_revealed++;] *)
Definition reveal_counted (game : Game) (i j : Z) : Game :=
  with_count_revealed (with_grid game (set_cell mark_revealed (grid game) i j))
                      (u32 (count_revealed game + 1)).

(** The test [count_flagged_neighbors(...) != count_bomb_neighbors(...)]. *)
Definition unsettled (game : Game) (i j : Z) : bool :=
  negb (count_flagged_neighbors (grid game) i j =? count_bomb_neighbors (grid game) i j).

(** [for (auto& dir : dirs) f(game, i + dir[0], j + dir[1]);] *)
Definition for_dirs {S : Type} (dirs : list (Z * Z)) (f : S -> Z -> Z -> result S)
    (game : S) (i j : Z) : result S :=
  fold_left (fun acc dir => g ← acc; f g (i + dir.1) (j + dir.2)) dirs (Ok game).

(** [expand], with the depth of the recursion bounded by [fuel]. *)
Fixpoint expand_fuel (fuel : nat) (game : Game) (i j : Z) : result Game :=
  match fuel with
  | O => Err OutOfFuel
  | S fuel' =>
      if blocked game i j then Ok game
      else
        let game1 := reveal_counted game i j in
        if unsettled game1 i j then Ok game1
        else for_dirs dir4 (expand_fuel fuel') game1 i j
  end.

(** [expand] proper: one more level than the grid has cells is always
    enough (theorem [expand_terminates]). *)
Definition expand (game : Game) (i j : Z) : result Game :=
  expand_fuel (S (rows (grid game) * cols (grid game))) game i j.

(** [try_reveal] *)
Definition try_reveal (game : Game) (i j : Z) : result (PlayerMove * Game) :=
  if outside (grid game) i j then Ok (OutBounds, game)
  else if is_flagged (cell_at (grid game) i j) then Ok (NA, game)
  else if is_bomb (cell_at (grid game) i j) then
    Ok (LosingMove, with_grid game (set_cell mark_revealed (grid game) i j))
  else if negb (is_revealed (cell_at (grid game) i j)) then
    g ← expand game i j;
    Ok (Success, with_grid g (set_cell mark_revealed (grid g) i j))
  else if unsettled game i j then Ok (Success, game)
  else
    g ← for_dirs dir8 expand game i j;
    Ok (Success, g).

(** [try_set_flag]: [count_flagged += (value) ? 1 : -1] on a [uint32_t]. *)
Definition try_set_flag (game : Game) (i j : Z) (value : bool) : PlayerMove * Game :=
  if outside (grid game) i j then (OutBounds, game)
  else if is_revealed (cell_at (grid game) i j) then (NA, game)
  else
    (Success,
     with_grid
       (with_count_flagged game (u32 (count_flagged game + (if value then 1 else -1))))
       (set_cell (set_flagged value) (grid game) i j)).

(** ** Commands and the main loop *)

(** [print_bombs_left]: the number written to the terminal,
    [std::max(game.count_bombs - game.count_flagged, 0u)] on [uint32_t]. *)
Definition print_bombs_left (game : Game) : Z :=
  Z.max (u32 (count_bombs game - count_flagged game)) 0.

(** The body of the loop of [flag], for one coordinate pair. *)
Definition flag_step (value : bool) (game : Game) (place : Z * Z) : Game :=
  (try_set_flag game place.1 place.2 value).2.

(** [flag]: a command has an odd number of words, at least three, that
    is, a non-empty sequence of coordinate pairs. *)
Definition flag (game : Game) (places : list (Z * Z)) (value : bool) : Game :=
  fold_left (flag_step value) places game.

(** The body of the loop of [reveal], for one coordinate pair. The write
    [game.grid[i][j].type = CellType::EMPTY] is not guarded by [outside]:
    outside the grid it is an out-of-range access to the vector. *)
Definition reveal_step (game : Game) (i j : Z) : result (PlayerMove * Game) :=
  game1 ← (if first_move game then
             if outside (grid game) i j then Err OutOfRange
             else Ok (with_grid game (set_cell (set_type EMPTY) (grid game) i j))
           else Ok game);
  let game2 := with_first_move game1 false in
  mg ← try_reveal game2 i j;
  match mg.1 with
  | LosingMove => Ok (LosingMove, with_state mg.2 OVER)
  | move => Ok (move, mg.2)
  end.

(** [reveal]: the loop returns at the first losing move. *)
Fixpoint reveal (game : Game) (places : list (Z * Z)) : result Game :=
  match places with
  | [] => Ok game
  | place :: rest =>
      mg ← reveal_step game place.1 place.2;
      match mg.1 with
      | LosingMove => Ok mg.2
      | _ => reveal mg.2 rest
      end
  end.

(** The entries of [table] that return to the main loop. *)
Inductive Command :=
| CmdFlag (places : list (Z * Z))
| CmdUnflag (places : list (Z * Z))
| CmdReveal (places : list (Z * Z))
| CmdRestart
| CmdHelp
| CmdBombsLeft.

Definition run_command (game : Game) (cmd : Command) : result Game :=
  match cmd with
  | CmdFlag places => Ok (flag game places true)
  | CmdUnflag places => Ok (flag game places false)
  | CmdReveal places => reveal game places
  | CmdRestart => Ok (restart game)
  | CmdHelp | CmdBombsLeft => Ok game
  end.

(** One iteration of the loop of [main]: a command, then the win test. *)
Definition turn (game : Game) (cmd : Command) : result Game :=
  g ← run_command game cmd;
  Ok (if is_won g then with_state g OVER else g).

(** The states the program goes through: a constructed game, then one
    command after another for as long as the state is [ACTIVE]. *)
Inductive reachable : Game -> Prop :=
| reach_new (m n : nat) hit first_move0 :
    (0 < m)%nat -> (0 < n)%nat -> reachable (new_game m n hit first_move0)
| reach_turn game cmd game' :
    reachable game -> state game = ACTIVE -> turn game cmd = Ok game' ->
    reachable game'.

(** The loop of [main] fed with a sequence of commands: it stops when
    the state is [OVER]. *)
Fixpoint play (game : Game) (cmds : list Command) : result Game :=
  match cmds with
  | [] => Ok game
  | cmd :: rest =>
      match state game with
      | OVER => Ok game
      | ACTIVE => g ← turn game cmd; play g rest
      end
  end.

(** ** Small boards used in the scenarios *)

(** One row: [Empty, Mine, Empty]. *)
Definition strip (first_move0 : bool) : Game :=
  new_game 1 3 (fun _ j => Nat.eqb j 1) first_move0.

(** Two rows of two empty cells. *)
Definition square (first_move0 : bool) : Game :=
  new_game 2 2 (fun _ _ => false) first_move0.

(** One row: [Mine, Empty]. *)
Definition mine_first (first_move0 : bool) : Game :=
  new_game 1 2 (fun _ j => Nat.eqb j 0) first_move0.

(** One row: [Mine, Mine, Empty]. *)
Definition two_mines (first_move0 : bool) : Game :=
  new_game 1 3 (fun _ j => Nat.ltb j 2) first_move0.

(** One row of two empty cells. *)
Definition empty_pair (first_move0 : bool) : Game :=
  new_game 1 2 (fun _ _ => false) first_move0.

(** One row of three empty cells. *)
Definition empty_triple (first_move0 : bool) : Game :=
  new_game 1 3 (fun _ _ => false) first_move0.

(** Two rows of two cells, the one mine in the corner (1, 1). *)
Definition corner_mine (first_move0 : bool) : Game :=
  new_game 2 2 (fun i j => Nat.eqb i 1 && Nat.eqb j 1) first_move0.

(** Two rows of two cells, mines at (0, 1) and (1, 0). *)
Definition cross_mines (first_move0 : bool) : Game :=
  new_game 2 2 (fun i j => negb (Nat.eqb i j)) first_move0.

(** Non-mine cells that are still hidden. *)
Definition safe_hidden (c : Cell) : bool := negb (is_bomb c) && negb (is_revealed c).

(** ** Vocabulary of the properties *)

(** A grid as [fill_grid] builds it: at least one row, all rows as long
    as the first. *)
Definition wf_grid (grid : Grid) : Prop :=
  (0 < rows grid)%nat /\ Forall (fun row => length row = cols grid) grid.

Definition inside (grid : Grid) (i j : Z) : Prop :=
  0 <= i < Z.of_nat (rows grid) /\ 0 <= j < Z.of_nat (cols grid).

Definition revealed (game : Game) (i j : Z) : bool :=
  is_revealed (cell_at (grid game) i j).

(** A cell [expand] does not refuse for a reason other than being
    revealed already. *)
Definition passable (game : Game) (i j : Z) : Prop :=
  outside (grid game) i j = false
  /\ is_bomb (cell_at (grid game) i j) = false
  /\ is_flagged (cell_at (grid game) i j) = false.

(** Cells that are still hidden: the measure of the flood fill. *)
Definition hidden (game : Game) : nat :=
  count_cells (fun c => negb (is_revealed c)) (grid game).

(** What a flood fill may change between two states: nothing but the
    revealed bits of passable cells (and [count_revealed]), and only from
    hidden to revealed. *)
Record grows (g g' : Game) : Prop := {
  grows_rows : rows (grid g') = rows (grid g);
  grows_cols : cols (grid g') = cols (grid g);
  grows_wf : wf_grid (grid g) -> wf_grid (grid g');
  grows_bombs : count_bombs g' = count_bombs g;
  grows_flagged : count_flagged g' = count_flagged g;
  grows_first : first_move g' = first_move g;
  grows_state : state g' = state g;
  grows_type : forall x y, type (cell_at (grid g') x y) = type (cell_at (grid g) x y);
  grows_flag : forall x y,
      is_flagged (cell_at (grid g') x y) = is_flagged (cell_at (grid g) x y);
  grows_mono : forall x y, revealed g x y = true -> revealed g' x y = true;
  grows_safe : forall x y,
      inside (grid g) x y -> revealed g' x y = true ->
      revealed g x y = true \/ passable g x y
}.

(** [expand] run on a game paired with a journal: the same code, which
    also appends the coordinates of every cell it marks revealed. *)
Fixpoint expand_log (fuel : nat) (st : Game * list (Z * Z)) (i j : Z)
    : result (Game * list (Z * Z)) :=
  match fuel with
  | O => Err OutOfFuel
  | S fuel' =>
      if blocked st.1 i j then Ok st
      else
        let st1 := (reveal_counted st.1 i j, st.2 ++ [(i, j)]) in
        if unsettled st1.1 i j then Ok st1
        else for_dirs dir4 (expand_log fuel') st1 i j
  end.

(** The journal describes reveals of [g0] that lead to [st.1]: no cell
    twice, each one a cell of the grid that was hidden in [g0] and is
    revealed now, and one tick of [count_revealed] per entry. *)
Record journal_ok (g0 : Game) (st : Game * list (Z * Z)) : Prop := {
  journal_grows : grows g0 st.1;
  journal_nodup : NoDup st.2;
  journal_cells : forall c, c ∈ st.2 ->
      inside (grid g0) c.1 c.2 /\ revealed g0 c.1 c.2 = false /\ revealed st.1 c.1 c.2 = true;
  journal_hidden : (length st.2 + hidden st.1 = hidden g0)%nat;
  journal_count :
    u32 (count_revealed st.1) = u32 (count_revealed g0 + Z.of_nat (length st.2))
}.

(** Every cell revealed between [g] and [g'] whose flag count matches
    its bomb count has its passable orthogonal neighbours revealed in
    [g']: the fill went on from there. *)
Definition closed_since (g g' : Game) : Prop :=
  forall x y,
    inside (grid g) x y -> revealed g x y = false -> revealed g' x y = true ->
    unsettled g x y = false ->
    forall d, d ∈ dir4 -> passable g (x + d.1) (y + d.2) ->
              revealed g' (x + d.1) (y + d.2) = true.

Definition flood (g g' : Game) : Prop := grows g g' /\ closed_since g g'.

(** Cells joined to [(i, j)] by orthogonal steps through cells that
    satisfy [P]: the 4-connected region of [(i, j)]. *)
Inductive connected4 (P : Z -> Z -> Prop) (i j : Z) : Z -> Z -> Prop :=
| conn_start : P i j -> connected4 P i j i j
| conn_step x y d :
    connected4 P i j x y -> d ∈ dir4 -> P (x + d.1) (y + d.2) ->
    connected4 P i j (x + d.1) (y + d.2).

(** A cell of the grid that is no mine and has no mine around it. *)
Definition zero_cell (g : Game) (x y : Z) : Prop :=
  inside (grid g) x y
  /\ is_bomb (cell_at (grid g) x y) = false
  /\ count_bomb_neighbors (grid g) x y = 0.

(** A zero cell that is hidden, carries no flag and has no flag around it. *)
Definition calm_cell (g : Game) (x y : Z) : Prop :=
  zero_cell g x y
  /\ is_flagged (cell_at (grid g) x y) = false
  /\ revealed g x y = false
  /\ count_flagged_neighbors (grid g) x y = 0.

(** A revealed cell that is no mine: what [count_revealed] counts. *)
Definition safe_revealed (c : Cell) : bool := is_revealed c && negb (is_bomb c).
Definition revealed_bomb (c : Cell) : bool := is_revealed c && is_bomb c.

Definition revealed_inv (g : Game) : Prop :=
  count_revealed g = u32 (Z.of_nat (count_cells safe_revealed (grid g))).

(** What holds of every state of a run. *)
Record game_inv (g : Game) : Prop := {
  inv_wf : wf_grid (grid g);
  inv_revealed : revealed_inv g;
  inv_first : first_move g = true -> count_cells is_revealed (grid g) = 0%nat
}.

(** A step that keeps the grid well formed and the counter right, and
    does not touch [first_move]. *)
Definition keeps (a b : Game) : Prop :=
  (wf_grid (grid a) /\ revealed_inv a -> wf_grid (grid b) /\ revealed_inv b)
  /\ first_move b = first_move a.

(** ** The text side: words, numbers, commands, the loop of [main]

    The text written to the terminal is left out, except for what
    [print] and [operator<<] write for a game; the [bool] the handlers
    return (whether [main] prints the board) is kept. Input is the
    sequence of lines [std::getline] delivers. *)
Module Cli.

(** [std::isspace] in the "C" locale, as used by [operator>>] and by
    [strtol]: space, [\t], [\n], [\v], [\f], [\r]. *)
Definition isspace (c : ascii) : bool :=
  let n := Ascii.N_of_ascii c in
  (n =? 32)%N || ((9 <=? n)%N && (n <=? 13)%N).

(** [is >> word]: skip leading whitespace, then take characters up to
    the next whitespace or the end; fails when nothing is left. *)
Fixpoint skip_ws (s : string) : string :=
  match s with
  | String c s' => if isspace c then skip_ws s' else s
  | EmptyString => EmptyString
  end.

Fixpoint read_word (s : string) : string * string :=
  match s with
  | String c s' =>
      if isspace c then (EmptyString, s)
      else (String c (read_word s').1, (read_word s').2)
  | EmptyString => (EmptyString, EmptyString)
  end.

Definition extract (s : string) : option (string * string) :=
  match skip_ws s with
  | EmptyString => None
  | s' => Some (read_word s')
  end.

(** [to_command]: [while (is >> word) result.push_back(word);]. Every
    extraction consumes a character, so the length of the line bounds
    the number of rounds. *)
Fixpoint to_command_fuel (fuel : nat) (str : string) : list string :=
  match fuel with
  | O => []
  | S fuel' =>
      match extract str with
      | None => []
      | Some (word, rest) => word :: to_command_fuel fuel' rest
      end
  end.

Definition to_command (str : string) : list string :=
  to_command_fuel (S (String.length str)) str.

(** The exceptions of [std::stoi]; nothing catches them. *)
Inductive exception := invalid_argument | out_of_range.

Definition is_digit (c : ascii) : bool :=
  let n := Ascii.N_of_ascii c in (48 <=? n)%N && (n <=? 57)%N.

Definition digit_value (c : ascii) : Z := Z.of_N (Ascii.N_of_ascii c) - 48.

Fixpoint read_digits (s : string) (acc : Z) : Z :=
  match s with
  | String c s' => if is_digit c then read_digits s' (10 * acc + digit_value c) else acc
  | EmptyString => acc
  end.

(** [std::stoi(str)], base 10: leading whitespace, an optional sign, the
    longest run of digits; [invalid_argument] without a digit,
    [out_of_range] when the number is no [int]; what follows the digits
    is ignored. *)
Definition stoi (str : string) : exception + Z :=
  let s := skip_ws str in
  let signed :=
    match s with
    | String "-"%char s' => (true, s')
    | String "+"%char s' => (false, s')
    | _ => (false, s)
    end in
  match signed.2 with
  | String c _ =>
      if is_digit c then
        let v := read_digits signed.2 0 in
        let v := if signed.1 then - v else v in
        if (v <? - 2 ^ 31) || (2 ^ 31 - 1 <? v) then inl out_of_range else inr v
      else inl invalid_argument
  | EmptyString => inl invalid_argument
  end.

(** [std::to_string] of an unsigned 32-bit value, and [os << i] for an
    [int] that is not negative: at most ten decimal digits. *)
Definition digit_char (d : Z) : ascii := Ascii.ascii_of_N (Z.to_N (48 + d)).

Fixpoint to_string_digits (fuel : nat) (n : Z) (tail : string) : string :=
  match fuel with
  | O => tail
  | S fuel' =>
      let tail' := String (digit_char (n mod 10)) tail in
      if n <? 10 then tail' else to_string_digits fuel' (n / 10) tail'
  end.

Definition to_string (n : Z) : string := to_string_digits 10 n EmptyString.

(** How a call can end: it returns, an exception of [stoi] leaves
    [main], the [exit] entry ends the process, input runs out while
    [accept_input] waits for a command, or the engine faults. *)
Inductive outcome (A : Type) : Type :=
| Returns (a : A)
| Throws (e : exception)
| Exits
| Hangs
| Faults (f : fault).
Arguments Returns {A} a.
Arguments Throws {A} e.
Arguments Exits {A}.
Arguments Hangs {A}.
Arguments Faults {A} f.

#[global] Instance outcome_bind : MBind outcome := fun A B k m =>
  match m with
  | Returns a => k a
  | Throws e => Throws e
  | Exits => Exits
  | Hangs => Hangs
  | Faults f => Faults f
  end.

(** The loop of [flag] over [command[k], command[k + 1]], [k = 1, 3, ...]. *)
Fixpoint flag_loop (game : Game) (args : list string) (value : bool) : outcome Game :=
  match args with
  | wi :: wj :: rest =>
      match stoi wi with
      | inl e => Throws e
      | inr i =>
          match stoi wj with
          | inl e => Throws e
          | inr j => flag_loop (flag_step value game (i, j)) rest value
          end
      end
  | _ => Returns game
  end.

(** [flag] on the words of a command. *)
Definition flag (game : Game) (command : list string) (value : bool)
    : outcome (bool * Game) :=
  if (length command <? 3)%nat || (length command mod 2 =? 0)%nat
  then Returns (false, game)
  else g ← flag_loop game (tail command) value; Returns (true, g).

(** The loop of [reveal]. *)
Fixpoint reveal_loop (game : Game) (args : list string) : outcome Game :=
  match args with
  | wi :: wj :: rest =>
      match stoi wi with
      | inl e => Throws e
      | inr i =>
          match stoi wj with
          | inl e => Throws e
          | inr j =>
              match reveal_step game i j with
              | Err f => Faults f
              | Ok (LosingMove, g) => Returns g
              | Ok (_, g) => reveal_loop g rest
              end
          end
      end
  | _ => Returns game
  end.

(** [reveal] on the words of a command. *)
Definition reveal (game : Game) (command : list string) : outcome (bool * Game) :=
  if (length command <? 3)%nat || (length command mod 2 =? 0)%nat
  then Returns (false, game)
  else g ← reveal_loop game (tail command); Returns (true, g).

(** [table]: the handler of a verb, if it has one. *)
Definition table (verb : string)
    : option (Game -> list string -> outcome (bool * Game)) :=
  if String.eqb verb "flag" then Some (fun game command => flag game command true)
  else if String.eqb verb "unflag" then Some (fun game command => flag game command false)
  else if String.eqb verb "reveal" then Some reveal
  else if String.eqb verb "help" then Some (fun game _ => Returns (true, game))
  else if String.eqb verb "exit" then Some (fun _ _ => Exits)
  else if String.eqb verb "restart" then Some (fun game _ => Returns (true, restart game))
  else if String.eqb verb "bombs_left?" then Some (fun game _ => Returns (true, game))
  else None.

(** [accept_input]: read a line; on a line without a word call itself
    again. The result carries the lines not read yet. At the end of
    input [std::getline] keeps delivering the empty line, and the
    function never returns. *)
Fixpoint accept_input (lines : list string) (game : Game)
    : outcome (bool * Game * list string) :=
  match lines with
  | [] => Hangs
  | ln :: rest =>
      match to_command ln with
      | [] => accept_input rest game
      | verb :: args =>
          match table verb with
          | None => Returns (false, game, rest)
          | Some option => r ← option game (verb :: args); Returns (r.1, r.2, rest)
          end
      end
  end.

(** [prompt] *)
Definition prompt (lines : list string) (game : Game)
    : outcome (bool * Game * list string) :=
  accept_input lines game.

(** The loop of [main]. Every round reads at least one line. *)
Fixpoint main_loop (fuel : nat) (lines : list string) (game : Game) : outcome Game :=
  match fuel with
  | O => Faults OutOfFuel
  | S fuel' =>
      match state game with
      | OVER => Returns game
      | ACTIVE =>
          r ← prompt lines game;
          main_loop fuel' r.2
                    (if is_won r.1.2 then with_state r.1.2 OVER else r.1.2)
      end
  end.

Definition main (lines : list string) (game : Game) : outcome Game :=
  main_loop (S (length lines)) lines game.

(** The escape character of the colour codes. *)
Definition esc : string := String (Ascii.ascii_of_N 27) EmptyString.

Definition glyph_flag : string := esc +:+ "[1;44mF" +:+ esc +:+ "[0m".
Definition glyph_hidden : string := ".".
Definition glyph_bomb : string := esc +:+ "[30;41;1mB" +:+ esc +:+ "[0m".
Definition glyph_blank : string := esc +:+ "[47m " +:+ esc +:+ "[0m".
Definition glyph_number (bombs : Z) : string :=
  esc +:+ "[43;30;1m" +:+ to_string bombs +:+ esc +:+ "[0m".

(** [print]: what is written for the cell at [(i, j)]. *)
Definition print (game : Game) (i j : Z) : string :=
  let cell := cell_at (grid game) i j in
  if is_flagged cell || is_won game && is_bomb cell then glyph_flag
  else if negb (match state game with OVER => true | ACTIVE => false end)
          && negb (is_revealed cell) then glyph_hidden
  else if is_bomb cell then glyph_bomb
  else
    let bombs := count_bomb_neighbors (grid game) i j in
    if bombs =? 0 then glyph_blank else glyph_number bombs.

Definition newline : string := String (Ascii.ascii_of_N 10) EmptyString.

Definition concat_strings (l : list string) : string :=
  fold_right String.append EmptyString l.

(** The first line of [operator<<]: three spaces, then every column
    index followed by a space. *)
Definition show_header (game : Game) : string :=
  "   " +:+ concat_strings
              ((fun i => to_string (Z.of_nat i) +:+ " ") <$> seq 0 (cols (grid game))).

(** One more line per row: the row index, two spaces, then every cell
    of the row followed by a space. *)
Definition show_row (game : Game) (i : nat) : string :=
  to_string (Z.of_nat i) +:+ "  "
  +:+ concat_strings
        ((fun j => print game (Z.of_nat i) (Z.of_nat j) +:+ " ")
           <$> seq 0 (length (grid game !!! i))).

(** [operator<<] for a game. *)
Definition show (game : Game) : string :=
  show_header game +:+ newline
  +:+ concat_strings ((fun i => show_row game i +:+ newline) <$> seq 0 (rows (grid game))).

(** *** Vocabulary of the properties of the text side *)

Fixpoint no_space (s : string) : bool :=
  match s with
  | String c s' => negb (isspace c) && no_space s'
  | EmptyString => true
  end.

(** A word: not empty, no whitespace in it. *)
Definition is_word (w : string) : bool :=
  match w with
  | String _ _ => no_space w
  | EmptyString => false
  end.

(** A line of whitespace only. *)
Fixpoint all_space (s : string) : bool :=
  match s with
  | String c s' => isspace c && all_space s'
  | EmptyString => true
  end.

(** Words joined by single spaces. *)
Fixpoint unwords (ws : list string) : string :=
  match ws with
  | [] => EmptyString
  | w :: ws' =>
      match ws' with
      | [] => w
      | _ :: _ => w +:+ " " +:+ unwords ws'
      end
  end.

(** Whether a string starts with a decimal digit. *)
Definition starts_with_digit (s : string) : bool :=
  match s with
  | String c _ => is_digit c
  | EmptyString => false
  end.

(** The coordinate pairs a sequence of words stands for, read pair by
    pair with [stoi]; the first exception wins. *)
Fixpoint parse_places (args : list string) : exception + list (Z * Z) :=
  match args with
  | wi :: wj :: rest =>
      match stoi wi with
      | inl e => inl e
      | inr i =>
          match stoi wj with
          | inl e => inl e
          | inr j =>
              match parse_places rest with
              | inl e => inl e
              | inr places => inr ((i, j) :: places)
              end
          end
      end
  | _ => inr []
  end.

(** An engine result seen from the text side. *)
Definition lift {A} (r : result A) : outcome A :=
  match r with
  | Ok a => Returns a
  | Err f => Faults f
  end.

End Cli.

(** ** Vocabulary of the further properties *)

(** Whether the neighbour of [(i, j)] in direction [d] is a cell of the
    grid that satisfies [p]. *)
Definition neighbor_hit (grid : Grid) (i j : Z) (p : Cell -> bool) (d : Z * Z) : bool :=
  negb (outside grid (i + d.1) (j + d.2)) && p (cell_at grid (i + d.1) (j + d.2)).

(** The eight neighbours of a cell, place by place: whether the cell at
    [(x, y)] is in the grid and satisfies [p], and how many of the eight
    places around [(i, j)] do. *)
Definition holds_at (p : Cell -> bool) (game : Game) (x y : Z) : nat :=
  Nat.b2n (negb (outside (grid game) x y) && p (cell_at (grid game) x y)).

Definition around (p : Cell -> bool) (game : Game) (i j : Z) : nat :=
  (holds_at p game i (j + 1) + holds_at p game (i + 1) j
   + holds_at p game i (j - 1) + holds_at p game (i - 1) j
   + holds_at p game (i + 1) (j + 1) + holds_at p game (i + 1) (j - 1)
   + holds_at p game (i - 1) (j + 1) + holds_at p game (i - 1) (j - 1))%nat.

(** What the players and the display rely on along a run. *)
Record run_inv (g : Game) : Prop := {
  run_flag_hidden : forall x y,
      inside (grid g) x y -> is_flagged (cell_at (grid g) x y) = true ->
      revealed g x y = false;
  run_no_bomb_shown : state g = ACTIVE ->
      forall x y, inside (grid g) x y -> revealed g x y = true ->
                  is_bomb (cell_at (grid g) x y) = false;
  run_counters : 0 <= count_bombs g < 2 ^ 32 /\ 0 <= count_flagged g < 2 ^ 32
}.

(** The game a sequence of commands leads to (the game itself if the
    run faults on the way). *)
Definition after (g : Game) (cmds : list Command) : Game :=
  match play g cmds with
  | Ok g' => g'
  | Err _ => g
  end.

(** A game that is over was won or shows the mine that ended it. *)
Definition over_ok (g : Game) : Prop :=
  state g = OVER ->
  is_won g = true
  \/ exists x y, inside (grid g) x y /\ revealed_bomb (cell_at (grid g) x y) = true.

(** * Properties *)

(** ** Lists and grids *)

Lemma sum_list_with_alter {A} (h : A -> nat) (f : A -> A) (l : list A) (k : nat) (x : A) :
  l !! k = Some x ->
  (sum_list_with h (alter f k l) + h x = sum_list_with h l + h (f x))%nat.
Proof.
  revert k. induction l as [|a l IH]; intros [|k] Hk; simplify_eq/=.
  - lia.
  - specialize (IH _ Hk). lia.
Qed.

Lemma sum_list_with_bound {A} (h : A -> nat) (b : nat) (l : list A) :
  Forall (fun x => (h x <= b)%nat) l -> (sum_list_with h l <= length l * b)%nat.
Proof. induction 1; simpl; lia. Qed.

Lemma outside_false grid i j : outside grid i j = false <-> inside grid i j.
Proof.
  unfold outside, inside. rewrite !orb_false_iff, !Z.ltb_ge, !Z.geb_leb, !Z.leb_gt. lia.
Qed.

Lemma outside_true grid i j : outside grid i j = true <-> ~ inside grid i j.
Proof. rewrite <- outside_false. destruct (outside grid i j); intuition congruence. Qed.

Lemma rows_set_cell f grid i j : rows (set_cell f grid i j) = rows grid.
Proof. apply length_alter. Qed.

Lemma cols_set_cell f grid i j : cols (set_cell f grid i j) = cols grid.
Proof.
  unfold cols, set_cell. rewrite list_lookup_total_alter.
  case_decide as H; [|done]. destruct H as [-> _]. by rewrite length_alter.
Qed.

Lemma outside_set_cell f grid i j x y :
  outside (set_cell f grid i j) x y = outside grid x y.
Proof. unfold outside. by rewrite rows_set_cell, cols_set_cell. Qed.

Lemma wf_set_cell f grid i j : wf_grid grid -> wf_grid (set_cell f grid i j).
Proof.
  intros [Hr Hc]. split; [by rewrite rows_set_cell|].
  rewrite cols_set_cell. unfold set_cell. apply Forall_alter; [done|].
  intros row _ Hrow. by rewrite length_alter.
Qed.

Lemma wf_row_length grid i :
  wf_grid grid -> (i < rows grid)%nat -> length (grid !!! i) = cols grid.
Proof.
  intros [_ Hc] Hi. rewrite Forall_lookup in Hc.
  apply (Hc i). by apply list_lookup_lookup_total_lt.
Qed.

(** A field that [f] leaves alone reads the same everywhere after
    [grid[i][j] = f(grid[i][j])]. *)
Lemma cell_at_set_cell_proj {B} (p : Cell -> B) f grid i j x y :
  (forall c, p (f c) = p c) ->
  p (cell_at (set_cell f grid i j) x y) = p (cell_at grid x y).
Proof.
  intros Hp. unfold cell_at, set_cell.
  rewrite list_lookup_total_alter. case_decide as H1; [|done].
  destruct H1 as [-> _]. rewrite list_lookup_total_alter.
  case_decide as H2; [|done]. destruct H2 as [<- _]. apply Hp.
Qed.

Lemma cell_at_set_cell_ne f grid i j x y :
  ~ (Z.to_nat i = Z.to_nat x /\ Z.to_nat j = Z.to_nat y) ->
  cell_at (set_cell f grid i j) x y = cell_at grid x y.
Proof.
  intros Hne. unfold cell_at, set_cell.
  rewrite list_lookup_total_alter. case_decide as H1; [|done].
  destruct H1 as [H1 _]. rewrite list_lookup_total_alter_ne; [by rewrite H1|].
  intros H2. by apply Hne.
Qed.

Lemma cell_at_set_cell_eq f grid i j :
  wf_grid grid -> inside grid i j ->
  cell_at (set_cell f grid i j) i j = f (cell_at grid i j).
Proof.
  intros Hwf [Hi Hj]. unfold cell_at, set_cell.
  assert (Z.to_nat i < rows grid)%nat as Hi' by lia.
  rewrite list_lookup_total_alter_eq by exact Hi'.
  rewrite list_lookup_total_alter_eq; [done|].
  rewrite wf_row_length by done. lia.
Qed.

Lemma count_cells_set_cell p f grid i j :
  wf_grid grid -> inside grid i j ->
  (count_cells p (set_cell f grid i j) + Nat.b2n (p (cell_at grid i j))
   = count_cells p grid + Nat.b2n (p (f (cell_at grid i j))))%nat.
Proof.
  intros Hwf [Hi Hj]. unfold count_cells, set_cell, cell_at.
  assert (Z.to_nat i < rows grid)%nat as Hi' by lia.
  pose proof (list_lookup_lookup_total_lt grid _ Hi') as Hrow.
  assert (Z.to_nat j < length (grid !!! Z.to_nat i))%nat as Hj'
    by (rewrite wf_row_length by done; lia).
  pose proof (list_lookup_lookup_total_lt _ _ Hj') as Hcell.
  pose proof (sum_list_with_alter (count_row p) (alter f (Z.to_nat j)) _ _ _ Hrow) as H1.
  pose proof (sum_list_with_alter (fun c => Nat.b2n (p c)) f _ _ _ Hcell) as H2.
  unfold count_row in *. lia.
Qed.

Lemma count_cells_bound p grid :
  wf_grid grid -> (count_cells p grid <= rows grid * cols grid)%nat.
Proof.
  intros [_ Hc]. unfold count_cells, rows.
  apply sum_list_with_bound. eapply Forall_impl; [exact Hc|].
  intros row <-. unfold count_row.
  etrans; [apply (sum_list_with_bound _ 1)|lia].
  apply Forall_forall. intros c _. destruct (p c); simpl; lia.
Qed.

(** ** The loop over directions *)

Lemma for_dirs_nil {S} (f : S -> Z -> Z -> result S) game i j :
  for_dirs [] f game i j = Ok game.
Proof. done. Qed.

Lemma fold_dirs_err {S} (f : S -> Z -> Z -> result S) dirs i j e :
  fold_left (fun acc dir => g ← acc; f g (i + dir.1) (j + dir.2)) dirs (Err e) = Err e.
Proof. induction dirs as [|d dirs IH]; [done|]. simpl. exact IH. Qed.

Lemma for_dirs_cons {S} (f : S -> Z -> Z -> result S) d dirs game i j :
  for_dirs (d :: dirs) f game i j
  = (g ← f game (i + d.1) (j + d.2); for_dirs dirs f g i j).
Proof.
  unfold for_dirs. simpl. destruct (f game (i + d.1) (j + d.2)) as [g|e]; simpl.
  - done.
  - apply fold_dirs_err.
Qed.

Lemma bind_Ok {A B} (m : result A) (k : A -> result B) b :
  (a ← m; k a) = Ok b <-> exists a, m = Ok a /\ k a = Ok b.
Proof.
  destruct m as [a|e]; simpl; split.
  - eauto.
  - by intros (a' & [= ->] & H).
  - done.
  - by intros (a' & [=] & _).
Qed.

(** A reflexive and transitive relation that holds across every call of
    the loop body holds across the loop. *)
Lemma for_dirs_rel {S} (P : S -> S -> Prop) (f : S -> Z -> Z -> result S) dirs :
  (forall g, P g g) ->
  (forall g1 g2 g3, P g1 g2 -> P g2 g3 -> P g1 g3) ->
  (forall g x y g', f g x y = Ok g' -> P g g') ->
  forall g i j g', for_dirs dirs f g i j = Ok g' -> P g g'.
Proof.
  intros P_refl P_trans Hf. induction dirs as [|d dirs IH]; intros g i j g' H.
  - rewrite for_dirs_nil in H. by simplify_eq.
  - rewrite for_dirs_cons in H. apply bind_Ok in H as (g1 & H1 & H2).
    eapply P_trans; eauto.
Qed.

(** A reflexive and transitive relation that holds across every counted
    reveal holds across a whole expansion. *)
Section expand_rel.
Variable P : Game -> Game -> Prop.
Hypothesis P_refl : forall g, P g g.
Hypothesis P_trans : forall g1 g2 g3, P g1 g2 -> P g2 g3 -> P g1 g3.

Hypothesis P_step : forall g i j, blocked g i j = false -> P g (reveal_counted g i j).

Lemma expand_fuel_rel n :
  forall g i j g', expand_fuel n g i j = Ok g' -> P g g'.
Proof.
  induction n as [|n IH]; intros g i j g' H; simpl in H; [done|].
  destruct (blocked g i j) eqn:Hb; [by simplify_eq|].
  destruct (unsettled (reveal_counted g i j) i j); [simplify_eq; by apply P_step|].
  eapply P_trans; [by apply P_step|].
  eapply (for_dirs_rel P); eauto.
Qed.

Lemma expand_rel g i j g' : expand g i j = Ok g' -> P g g'.
Proof. apply expand_fuel_rel. Qed.
End expand_rel.

(** ** What an expansion leaves alone *)

Lemma blocked_false game i j :
  blocked game i j = false <-> passable game i j /\ revealed game i j = false.
Proof. unfold blocked, passable, revealed. rewrite !orb_false_iff. tauto. Qed.

Lemma grows_refl g : grows g g.
Proof. split; auto. Qed.

Lemma grows_outside g g' x y :
  grows g g' -> outside (grid g') x y = outside (grid g) x y.
Proof. intros H. unfold outside. by rewrite (grows_rows _ _ H), (grows_cols _ _ H). Qed.

Lemma grows_inside g g' x y :
  grows g g' -> inside (grid g') x y <-> inside (grid g) x y.
Proof. intros H. unfold inside. by rewrite (grows_rows _ _ H), (grows_cols _ _ H). Qed.

Lemma grows_is_bomb g g' x y :
  grows g g' -> is_bomb (cell_at (grid g') x y) = is_bomb (cell_at (grid g) x y).
Proof. intros H. unfold is_bomb. by rewrite (grows_type _ _ H). Qed.

Lemma grows_passable g g' x y :
  grows g g' -> passable g' x y <-> passable g x y.
Proof.
  intros H. unfold passable.
  by rewrite (grows_outside _ _ _ _ H), (grows_is_bomb _ _ _ _ H), (grows_flag _ _ H).
Qed.

Lemma grows_trans g1 g2 g3 : grows g1 g2 -> grows g2 g3 -> grows g1 g3.
Proof.
  intros H12 H23. split.
  - by rewrite (grows_rows _ _ H23), (grows_rows _ _ H12).
  - by rewrite (grows_cols _ _ H23), (grows_cols _ _ H12).
  - intros. by apply (grows_wf _ _ H23), (grows_wf _ _ H12).
  - by rewrite (grows_bombs _ _ H23), (grows_bombs _ _ H12).
  - by rewrite (grows_flagged _ _ H23), (grows_flagged _ _ H12).
  - by rewrite (grows_first _ _ H23), (grows_first _ _ H12).
  - by rewrite (grows_state _ _ H23), (grows_state _ _ H12).
  - intros. by rewrite (grows_type _ _ H23), (grows_type _ _ H12).
  - intros. by rewrite (grows_flag _ _ H23), (grows_flag _ _ H12).
  - intros x y ?. by apply (grows_mono _ _ H23), (grows_mono _ _ H12).
  - intros x y Hin H3.
    destruct (grows_safe _ _ H23 x y) as [H2|H2]; [by apply (grows_inside _ _ _ _ H12)|done|..].
    + by apply (grows_safe _ _ H12).
    + right. by apply (grows_passable _ _ _ _ H12).
Qed.

Lemma same_cell_inside grid i j x y :
  inside grid i j -> inside grid x y ->
  Z.to_nat i = Z.to_nat x /\ Z.to_nat j = Z.to_nat y -> i = x /\ j = y.
Proof. unfold inside. lia. Qed.

Lemma grows_reveal_counted g i j :
  blocked g i j = false -> grows g (reveal_counted g i j).
Proof.
  intros [Hp Hr]%blocked_false. unfold reveal_counted. split; simpl; try done.
  - apply rows_set_cell.
  - apply cols_set_cell.
  - apply wf_set_cell.
  - intros. by apply (cell_at_set_cell_proj type).
  - intros. by apply (cell_at_set_cell_proj is_flagged).
  - unfold revealed; simpl. intros x y Hxy.
    destruct (decide (Z.to_nat i = Z.to_nat x /\ Z.to_nat j = Z.to_nat y)) as [[E1 E2]|Hne].
    + unfold cell_at, set_cell. rewrite <- E1, <- E2.
      unfold cell_at in Hxy. rewrite <- E1, <- E2 in Hxy.
      rewrite list_lookup_total_alter. case_decide; [|done].
      rewrite list_lookup_total_alter. by case_decide.
    + by rewrite cell_at_set_cell_ne.
  - unfold revealed; simpl. intros x y Hin Hxy.
    destruct (decide (Z.to_nat i = Z.to_nat x /\ Z.to_nat j = Z.to_nat y)) as [E|Hne].
    + right. destruct Hp as (Ho & ? & ?). apply outside_false in Ho.
      destruct (same_cell_inside _ _ _ _ _ Ho Hin E) as [<- <-].
      split_and!; [by apply outside_false|done..].
    + left. by rewrite cell_at_set_cell_ne in Hxy.
Qed.

Lemma expand_fuel_grows n g i j g' : expand_fuel n g i j = Ok g' -> grows g g'.
Proof.
  apply expand_fuel_rel; [apply grows_refl|apply grows_trans|apply grows_reveal_counted].
Qed.

Lemma count_neighbors_grows g g' p x y :
  grows g g' ->
  (forall a b, p (cell_at (grid g') a b) = p (cell_at (grid g) a b)) ->
  count_neighbors (grid g') x y p = count_neighbors (grid g) x y p.
Proof.
  intros H Hp. unfold count_neighbors. rewrite (grows_outside _ _ _ _ H).
  destruct (outside (grid g) x y); [done|].
  generalize 0. generalize dir8.
  induction l as [|d l IH]; intros z; [done|]. simpl.
  rewrite (grows_outside _ _ _ _ H), Hp. apply IH.
Qed.

Lemma unsettled_grows g g' x y : grows g g' -> unsettled g' x y = unsettled g x y.
Proof.
  intros H. unfold unsettled, count_flagged_neighbors, count_bomb_neighbors.
  rewrite !(count_neighbors_grows g g') by
    (done || apply (grows_flag _ _ H) || (intros; by apply grows_is_bomb)).
  done.
Qed.

(** ** Termination of the flood fill *)

Lemma hidden_reveal_counted g i j :
  wf_grid (grid g) -> blocked g i j = false ->
  (hidden (reveal_counted g i j) + 1 = hidden g)%nat.
Proof.
  intros Hwf [(Ho & _ & _) Hr]%blocked_false. apply outside_false in Ho.
  unfold hidden, reveal_counted; simpl.
  pose proof (count_cells_set_cell (fun c => negb (is_revealed c)) mark_revealed
                _ _ _ Hwf Ho) as H.
  unfold revealed in Hr. cbv beta in H. rewrite Hr in H. simpl in H. lia.
Qed.

Lemma hidden_bound g : wf_grid (grid g) -> (hidden g <= rows (grid g) * cols (grid g))%nat.
Proof. apply count_cells_bound. Qed.

Lemma for_dirs_total (f : Game -> Z -> Z -> result Game) n dirs :
  (forall g x y, wf_grid (grid g) -> (hidden g < n)%nat ->
     exists g', f g x y = Ok g' /\ grows g g' /\ (hidden g' <= hidden g)%nat) ->
  forall g i j, wf_grid (grid g) -> (hidden g < n)%nat ->
    exists g', for_dirs dirs f g i j = Ok g' /\ grows g g' /\ (hidden g' <= hidden g)%nat.
Proof.
  intros Hf. induction dirs as [|d dirs IH]; intros g i j Hwf Hn.
  - exists g. rewrite for_dirs_nil. split_and!; [done|apply grows_refl|lia].
  - rewrite for_dirs_cons.
    destruct (Hf g (i + d.1) (j + d.2)) as (g1 & -> & Hg1 & Hh1); [done..|]. simpl.
    destruct (IH g1 i j) as (g2 & -> & Hg2 & Hh2); [by apply (grows_wf _ _ Hg1)|lia|].
    exists g2. split_and!; [done|by eapply grows_trans|lia].
Qed.

(** Fuel above the number of hidden cells is never used up: every call
    that gets past the guard hides one cell less. *)
Lemma expand_fuel_total n :
  forall g i j, wf_grid (grid g) -> (hidden g < n)%nat ->
    exists g', expand_fuel n g i j = Ok g' /\ grows g g' /\ (hidden g' <= hidden g)%nat.
Proof.
  induction n as [|n IH]; intros g i j Hwf Hn; [lia|]. simpl.
  destruct (blocked g i j) eqn:Hb.
  { exists g. split_and!; [done|apply grows_refl|lia]. }
  pose proof (hidden_reveal_counted _ _ _ Hwf Hb) as Hh.
  pose proof (grows_reveal_counted _ _ _ Hb) as Hg.
  destruct (unsettled (reveal_counted g i j) i j).
  { eexists. split_and!; [done..|lia]. }
  destruct (for_dirs_total (expand_fuel n) n dir4 IH (reveal_counted g i j) i j)
    as (g' & -> & Hg' & Hh'); [by apply (grows_wf _ _ Hg)|lia|].
  exists g'. split_and!; [done|by eapply grows_trans|lia].
Qed.

Lemma expand_total g i j :
  wf_grid (grid g) ->
  exists g', expand g i j = Ok g' /\ grows g g' /\ (hidden g' <= hidden g)%nat.
Proof.
  intros Hwf. apply expand_fuel_total; [done|].
  pose proof (hidden_bound _ Hwf). lia.
Qed.

Lemma for_dirs_expand_total dirs g i j :
  wf_grid (grid g) ->
  exists g', for_dirs dirs expand g i j = Ok g' /\ grows g g'.
Proof.
  intros Hwf.
  destruct (for_dirs_total expand (S (hidden g)) dirs) with (g := g) (i := i) (j := j)
    as (g' & ? & ? & _); [|done|lia|by exists g'].
  intros. by apply expand_total.
Qed.

Lemma try_reveal_total g i j :
  wf_grid (grid g) -> exists move g', try_reveal g i j = Ok (move, g').
Proof.
  intros Hwf. unfold try_reveal.
  destruct (outside (grid g) i j); [by eauto|].
  destruct (is_flagged (cell_at (grid g) i j)); [by eauto|].
  destruct (is_bomb (cell_at (grid g) i j)); [by eauto|].
  destruct (is_revealed (cell_at (grid g) i j)); simpl.
  - destruct (unsettled g i j); [by eauto|].
    destruct (for_dirs_expand_total dir8 g i j Hwf) as (g' & -> & _). simpl. eauto.
  - destruct (expand_total g i j Hwf) as (g' & -> & _). simpl. eauto.
Qed.

(** ** The journal of an expansion *)

Lemma for_dirs_erase (f : Game -> Z -> Z -> result Game)
    (fl : Game * list (Z * Z) -> Z -> Z -> result (Game * list (Z * Z))) dirs :
  (forall st x y, f st.1 x y = match fl st x y with Ok st' => Ok st'.1 | Err e => Err e end) ->
  forall st i j,
    for_dirs dirs f st.1 i j
    = match for_dirs dirs fl st i j with Ok st' => Ok st'.1 | Err e => Err e end.
Proof.
  intros Hf. induction dirs as [|d dirs IH]; intros st i j; [done|].
  rewrite !for_dirs_cons, Hf.
  destruct (fl st (i + d.1) (j + d.2)) as [st1|e]; simpl; [apply IH|done].
Qed.

(** Forgetting the journal gives back [expand_fuel]. *)
Lemma expand_log_erase n :
  forall st i j,
    expand_fuel n st.1 i j
    = match expand_log n st i j with Ok st' => Ok st'.1 | Err e => Err e end.
Proof.
  induction n as [|n IH]; intros st i j; [done|]. simpl.
  destruct (blocked st.1 i j); [done|].
  destruct (unsettled (reveal_counted st.1 i j) i j); [done|].
  apply (for_dirs_erase (expand_fuel n) (expand_log n) dir4 IH
           (reveal_counted st.1 i j, st.2 ++ [(i, j)])).
Qed.

Lemma journal_ok_start g : journal_ok g (g, []).
Proof.
  split; simpl.
  - apply grows_refl.
  - constructor.
  - intros c Hc. by apply elem_of_nil in Hc.
  - done.
  - by rewrite Z.add_0_r.
Qed.

Lemma u32_succ z k : u32 z = u32 k -> u32 (u32 (z + 1)) = u32 (k + 1).
Proof.
  unfold u32. intros H. rewrite Z.mod_mod by lia.
  rewrite <- (Zplus_mod_idemp_l z), H, Zplus_mod_idemp_l. done.
Qed.

Lemma revealed_reveal_counted g i j :
  wf_grid (grid g) -> inside (grid g) i j -> revealed (reveal_counted g i j) i j = true.
Proof.
  intros Hwf Hin. unfold revealed, reveal_counted; simpl.
  by rewrite cell_at_set_cell_eq.
Qed.

Lemma journal_ok_step g0 st i j :
  wf_grid (grid g0) -> journal_ok g0 st -> blocked st.1 i j = false ->
  journal_ok g0 (reveal_counted st.1 i j, st.2 ++ [(i, j)]).
Proof.
  intros Hwf [Hg Hnd Hcells Hh Hc] Hb.
  pose proof (grows_reveal_counted _ _ _ Hb) as Hg1.
  pose proof (hidden_reveal_counted _ _ _ (grows_wf _ _ Hg Hwf) Hb) as Hh1.
  apply blocked_false in Hb as [(Ho & _ & _) Hr]. apply outside_false in Ho.
  split; simpl.
  - by eapply grows_trans.
  - apply NoDup_app. split_and!; [done| |apply NoDup_singleton].
    intros c Hc1 ->%list_elem_of_singleton.
    destruct (Hcells _ Hc1) as (_ & _ & Hrev). simpl in Hrev. congruence.
  - intros c [Hc1| ->%list_elem_of_singleton]%elem_of_app.
    + destruct (Hcells _ Hc1) as (? & ? & ?). split_and!; [done..|].
      by apply (grows_mono _ _ Hg1).
    + simpl. split_and!.
      * by apply (grows_inside _ _ _ _ Hg).
      * destruct (revealed g0 i j) eqn:E; [|done].
        apply (grows_mono _ _ Hg) in E. congruence.
      * apply revealed_reveal_counted; [by apply (grows_wf _ _ Hg)|done].
  - rewrite length_app. simpl. lia.
  - rewrite length_app. simpl.
    rewrite Nat2Z.inj_add, Z.add_assoc. by apply u32_succ.
Qed.

Lemma expand_log_journal g0 n :
  wf_grid (grid g0) ->
  forall st i j st', expand_log n st i j = Ok st' -> journal_ok g0 st -> journal_ok g0 st'.
Proof.
  intros Hwf. induction n as [|n IH]; intros st i j st' H; simpl in H; [done|].
  destruct (blocked st.1 i j) eqn:Hb; [by simplify_eq|].
  intros Hst. pose proof (journal_ok_step _ _ _ _ Hwf Hst Hb) as Hst1.
  destruct (unsettled (reveal_counted st.1 i j) i j); [by simplify_eq|].
  revert Hst1. revert H.
  apply (for_dirs_rel (fun a b => journal_ok g0 a -> journal_ok g0 b)); [tauto|tauto|].
  exact IH.
Qed.

(** ** The fill goes on from every settled cell *)

Lemma closed_since_refl g : closed_since g g.
Proof. intros x y _ H1 H2. congruence. Qed.

Lemma closed_since_trans g1 g2 g3 :
  grows g1 g2 -> grows g2 g3 ->
  closed_since g1 g2 -> closed_since g2 g3 -> closed_since g1 g3.
Proof.
  intros G12 G23 C12 C23 x y Hin H1 H3 Hs d Hd Hp.
  destruct (revealed g2 x y) eqn:H2.
  - apply (grows_mono _ _ G23). by apply (C12 x y).
  - apply (C23 x y); try done.
    + by apply (grows_inside _ _ _ _ G12).
    + by rewrite (unsettled_grows _ _ _ _ G12).
    + by apply (grows_passable _ _ _ _ G12).
Qed.

Lemma flood_refl g : flood g g.
Proof. split; [apply grows_refl|apply closed_since_refl]. Qed.

Lemma flood_trans g1 g2 g3 : flood g1 g2 -> flood g2 g3 -> flood g1 g3.
Proof.
  intros [G12 C12] [G23 C23]. split; [by eapply grows_trans|by eapply closed_since_trans].
Qed.

(** A counted reveal changes the revealed bit of its own cell only. *)
Lemma reveal_counted_elsewhere g i j x y :
  inside (grid g) i j -> inside (grid g) x y -> ~ (x = i /\ y = j) ->
  revealed (reveal_counted g i j) x y = revealed g x y.
Proof.
  intros Hij Hxy Hne. unfold revealed, reveal_counted; simpl.
  rewrite cell_at_set_cell_ne; [done|].
  intros E. destruct (same_cell_inside _ _ _ _ _ Hij Hxy E). by apply Hne.
Qed.

Lemma passable_blocked g i j :
  passable g i j -> blocked g i j = true -> revealed g i j = true.
Proof.
  unfold passable, blocked, revealed. intros (-> & -> & ->). simpl.
  by rewrite orb_false_r.
Qed.

Lemma for_dirs_closed (f : Game -> Z -> Z -> result Game) dirs :
  (forall g x y g', wf_grid (grid g) -> f g x y = Ok g' ->
     flood g g' /\ (passable g x y -> revealed g' x y = true)) ->
  forall g i j g', wf_grid (grid g) -> for_dirs dirs f g i j = Ok g' ->
    flood g g'
    /\ forall d, d ∈ dirs -> passable g (i + d.1) (j + d.2) ->
                 revealed g' (i + d.1) (j + d.2) = true.
Proof.
  intros Hf. induction dirs as [|d dirs IH]; intros g i j g' Hwf H.
  - rewrite for_dirs_nil in H. simplify_eq. split; [apply flood_refl|].
    intros d Hd. by apply elem_of_nil in Hd.
  - rewrite for_dirs_cons in H. apply bind_Ok in H as (g1 & H1 & H2).
    destruct (Hf _ _ _ _ Hwf H1) as [F1 R1].
    destruct (IH g1 i j g') as [F2 R2]; [by apply (grows_wf _ _ (proj1 F1))|done|].
    split; [by eapply flood_trans|].
    intros d' [->|Hd']%elem_of_cons Hp.
    + apply (grows_mono _ _ (proj1 F2)). by apply R1.
    + apply R2; [done|]. by apply (grows_passable _ _ _ _ (proj1 F1)).
Qed.

Lemma expand_fuel_closed n :
  forall g i j g', wf_grid (grid g) -> expand_fuel n g i j = Ok g' ->
    flood g g' /\ (passable g i j -> revealed g' i j = true).
Proof.
  induction n as [|n IH]; intros g i j g' Hwf H; simpl in H; [done|].
  destruct (blocked g i j) eqn:Hb.
  { simplify_eq. split; [apply flood_refl|]. intros Hp. by apply passable_blocked. }
  pose proof (grows_reveal_counted _ _ _ Hb) as G1.
  pose proof Hb as [Hp Hr]%blocked_false.
  assert (inside (grid g) i j) as Hin by (apply outside_false, Hp).
  pose proof (revealed_reveal_counted _ _ _ Hwf Hin) as R1.
  destruct (unsettled (reveal_counted g i j) i j) eqn:Hu.
  - simplify_eq. split; [split; [done|]|done].
    intros x y Hxy H0 H1 Hs.
    destruct (decide (x = i /\ y = j)) as [[-> ->]|Hne].
    + rewrite (unsettled_grows _ _ _ _ G1) in Hu. congruence.
    + rewrite reveal_counted_elsewhere in H1 by done. congruence.
  - destruct (for_dirs_closed (expand_fuel n) dir4 IH _ _ _ _ (grows_wf _ _ G1 Hwf) H)
      as [[G2 C2] R2].
    split; [split; [by eapply grows_trans|]|].
    + intros x y Hxy H0 H1 Hs d Hd Hpd.
      destruct (decide (x = i /\ y = j)) as [[-> ->]|Hne].
      * apply R2; [done|]. by apply (grows_passable _ _ _ _ G1).
      * apply (C2 x y); try done.
        -- by apply (grows_inside _ _ _ _ G1).
        -- by rewrite reveal_counted_elsewhere.
        -- by rewrite (unsettled_grows _ _ _ _ G1).
        -- by apply (grows_passable _ _ _ _ G1).
    + intros _. by apply (grows_mono _ _ G2).
Qed.

Lemma connected4_end P i j x y : connected4 P i j x y -> P x y.
Proof. by destruct 1. Qed.

Lemma calm_cell_passable g x y : calm_cell g x y -> passable g x y.
Proof.
  intros ((Hin & Hb & _) & Hf & _). split_and!; [by apply outside_false|done..].
Qed.

Lemma calm_cell_settled g x y : calm_cell g x y -> unsettled g x y = false.
Proof.
  intros ((_ & _ & Hb) & _ & _ & Hf). unfold unsettled. by rewrite Hb, Hf.
Qed.

(** Expansion from a cell of a calm region reveals the whole region. *)
Lemma expand_reveals_region g i j g' x y :
  wf_grid (grid g) -> expand g i j = Ok g' ->
  connected4 (calm_cell g) i j x y -> revealed g' x y = true.
Proof.
  intros Hwf H. apply expand_fuel_closed in H as [[G C] R]; [|done].
  induction 1 as [Hc|x y d Hconn IH Hd Hc].
  - by apply R, calm_cell_passable.
  - apply connected4_end in Hconn.
    apply (C x y); try done.
    + apply Hconn.
    + apply Hconn.
    + by apply calm_cell_settled.
    + by apply calm_cell_passable.
Qed.

(** Expansion never touches the revealed bit of a mine. *)
Lemma expand_spares_bombs g i j g' x y :
  expand g i j = Ok g' -> inside (grid g) x y ->
  is_bomb (cell_at (grid g) x y) = true ->
  revealed g' x y = revealed g x y.
Proof.
  intros H Hin Hb. apply expand_fuel_grows in H.
  destruct (revealed g x y) eqn:E; [by apply (grows_mono _ _ H)|].
  destruct (revealed g' x y) eqn:E'; [|done].
  destruct (grows_safe _ _ H x y Hin E') as [?|(_ & ? & _)]; congruence.
Qed.

(** ** Counting cells *)

Lemma sum_list_with_ext {A} (f h : A -> nat) l :
  (forall x, f x = h x) -> sum_list_with f l = sum_list_with h l.
Proof. intros E. induction l as [|a l IH]; simpl; [done|]. by rewrite E, IH. Qed.

Lemma sum_list_with_fmap {A B} (f : B -> nat) (h : A -> B) l :
  sum_list_with f (h <$> l) = sum_list_with (fun x => f (h x)) l.
Proof. induction l as [|a l IH]; [done|]. csimpl. by rewrite IH. Qed.

Lemma sum_list_with_zero {A} (f : A -> nat) l :
  (forall x, f x = 0%nat) -> sum_list_with f l = 0%nat.
Proof. intros E. induction l as [|a l IH]; simpl; [done|]. by rewrite E, IH. Qed.

Lemma sum_list_with_add {A} (f h : A -> nat) l :
  sum_list_with (fun x => (f x + h x)%nat) l = (sum_list_with f l + sum_list_with h l)%nat.
Proof. induction l as [|a l IH]; simpl; [done|]. rewrite IH. lia. Qed.

Lemma count_cells_fmap p f grid :
  count_cells p (fmap (M:=list) f <$> grid) = count_cells (fun c => p (f c)) grid.
Proof.
  unfold count_cells. rewrite sum_list_with_fmap. apply sum_list_with_ext.
  intros row. unfold count_row. by rewrite sum_list_with_fmap.
Qed.

Lemma count_cells_never p grid : (forall c, p c = false) -> count_cells p grid = 0%nat.
Proof.
  intros E. unfold count_cells. apply sum_list_with_zero. intros row.
  unfold count_row. apply sum_list_with_zero. intros c. by rewrite E.
Qed.

Lemma count_cells_revealed_split grid :
  count_cells is_revealed grid
  = (count_cells safe_revealed grid + count_cells revealed_bomb grid)%nat.
Proof.
  unfold count_cells. rewrite <- sum_list_with_add. apply sum_list_with_ext.
  intros row. unfold count_row. rewrite <- sum_list_with_add. apply sum_list_with_ext.
  intros c. unfold safe_revealed, revealed_bomb.
  by destruct (is_revealed c), (is_bomb c).
Qed.

Lemma count_cells_set_cell_same p f grid i j :
  wf_grid grid -> inside grid i j ->
  p (f (cell_at grid i j)) = p (cell_at grid i j) ->
  count_cells p (set_cell f grid i j) = count_cells p grid.
Proof.
  intros Hwf Hin E. pose proof (count_cells_set_cell p f _ _ _ Hwf Hin) as H.
  rewrite E in H. lia.
Qed.

Lemma wf_fill_grid m n hit : (0 < m)%nat -> wf_grid (fill_grid m n hit).
Proof.
  intros Hm. unfold wf_grid, rows, cols, fill_grid.
  destruct m as [|m]; [lia|]. split.
  - rewrite length_fmap, length_seq. lia.
  - simpl. rewrite length_fmap, length_seq.
    apply Forall_forall. intros row Hrow.
    change ((fun j => new_cell (if hit 0%nat j then BOMB else EMPTY)) <$> seq 0 n)
      with ((fun i => (fun j => new_cell (if hit i j then BOMB else EMPTY)) <$> seq 0 n) 0%nat)
      in Hrow.
    rewrite <- fmap_cons in Hrow. apply list_elem_of_fmap in Hrow as (i & -> & _).
    by rewrite length_fmap, length_seq.
Qed.

Lemma count_cells_fill_grid p m n hit :
  (forall t, p (new_cell t) = false) -> count_cells p (fill_grid m n hit) = 0%nat.
Proof.
  intros E. unfold count_cells, fill_grid. rewrite sum_list_with_fmap.
  apply sum_list_with_zero. intros i. unfold count_row.
  rewrite sum_list_with_fmap. apply sum_list_with_zero. intros j. by rewrite E.
Qed.

(** ** [count_revealed] counts the revealed cells that are no mine *)

Lemma revealed_inv_step g i j :
  wf_grid (grid g) -> blocked g i j = false ->
  revealed_inv g -> revealed_inv (reveal_counted g i j).
Proof.
  intros Hwf [(Ho & Hb & _) Hr]%blocked_false Hinv. apply outside_false in Ho.
  unfold revealed_inv, reveal_counted in *; simpl.
  pose proof (count_cells_set_cell safe_revealed mark_revealed _ _ _ Hwf Ho) as H.
  unfold revealed in Hr.
  assert (safe_revealed (cell_at (grid g) i j) = false) as E0
    by (unfold safe_revealed; by rewrite Hr).
  assert (safe_revealed (mark_revealed (cell_at (grid g) i j)) = true) as E1
    by (unfold safe_revealed, is_bomb in *; simpl; by destruct (type _)).
  rewrite E0, E1 in H. simpl in H.
  rewrite Hinv. unfold u32. rewrite Zplus_mod_idemp_l. f_equal. lia.
Qed.

Lemma keeps_refl a : keeps a a.
Proof. by split. Qed.

Lemma keeps_trans a b c : keeps a b -> keeps b c -> keeps a c.
Proof. intros [H1 E1] [H2 E2]. split; [tauto|congruence]. Qed.

Lemma expand_keeps g i j g' : expand g i j = Ok g' -> keeps g g'.
Proof.
  apply (expand_rel keeps); [apply keeps_refl|apply keeps_trans|].
  intros a x y Hb. split; [|done]. intros [Hwf Hinv]. split.
  - by apply (grows_wf _ _ (grows_reveal_counted _ _ _ Hb)).
  - by apply revealed_inv_step.
Qed.

Lemma for_dirs_expand_keeps dirs g i j g' :
  for_dirs dirs expand g i j = Ok g' -> keeps g g'.
Proof.
  apply (for_dirs_rel keeps); [apply keeps_refl|apply keeps_trans|].
  intros a x y b. apply expand_keeps.
Qed.

Lemma expand_reveals_start g i j g' :
  wf_grid (grid g) -> expand g i j = Ok g' -> passable g i j -> revealed g' i j = true.
Proof. intros Hwf H. by apply expand_fuel_closed in H as [_ ?]. Qed.

Lemma safe_revealed_mark c :
  is_bomb c = true \/ is_revealed c = true ->
  safe_revealed (mark_revealed c) = safe_revealed c.
Proof.
  unfold safe_revealed, is_bomb. simpl.
  intros [H| ->]; [|done]. destruct (type c); [done|]. by rewrite !andb_false_r.
Qed.

(** [try_reveal], whatever it answers: on its losing path the mine is
    marked revealed and [count_revealed] stays. *)
Lemma try_reveal_keeps g i j move g' :
  try_reveal g i j = Ok (move, g') -> keeps g g'.
Proof.
  unfold try_reveal. intros H.
  destruct (outside (grid g) i j) eqn:Ho; [simplify_eq; apply keeps_refl|].
  destruct (is_flagged (cell_at (grid g) i j)) eqn:Hf; [simplify_eq; apply keeps_refl|].
  pose proof Ho as Hin. apply outside_false in Hin.
  destruct (is_bomb (cell_at (grid g) i j)) eqn:Hb.
  { simplify_eq. split; [|done]. intros [Hwf Hinv]. split; simpl; [by apply wf_set_cell|].
    unfold revealed_inv in *; simpl. rewrite count_cells_set_cell_same; [done..|].
    apply safe_revealed_mark. by left. }
  destruct (is_revealed (cell_at (grid g) i j)) eqn:Hr; simpl in H.
  - destruct (unsettled g i j); [simplify_eq; apply keeps_refl|].
    apply bind_Ok in H as (g1 & H1 & [= <- <-]). by eapply for_dirs_expand_keeps.
  - apply bind_Ok in H as (g1 & H1 & [= <- <-]).
    pose proof (expand_keeps _ _ _ _ H1) as [K E].
    split; [|done]. intros Hboth. destruct (K Hboth) as [Hwf1 Hinv1].
    split; simpl; [by apply wf_set_cell|].
    unfold revealed_inv in *; simpl. rewrite count_cells_set_cell_same; [done..| |].
    + apply (grows_inside _ _ _ _ (expand_fuel_grows _ _ _ _ _ H1)), Hin.
    + apply safe_revealed_mark. right.
      apply (expand_reveals_start g i j); [apply Hboth|done|by split_and!].
Qed.

Lemma try_set_flag_grid g i j value :
  wf_grid (grid g) ->
  wf_grid (grid (try_set_flag g i j value).2)
  /\ count_revealed (try_set_flag g i j value).2 = count_revealed g
  /\ first_move (try_set_flag g i j value).2 = first_move g
  /\ forall p, (forall v c, p (set_flagged v c) = p c) ->
       count_cells p (grid (try_set_flag g i j value).2) = count_cells p (grid g).
Proof.
  intros Hwf. unfold try_set_flag.
  destruct (outside (grid g) i j) eqn:Ho; [done|].
  destruct (is_revealed (cell_at (grid g) i j)); [done|]. simpl.
  split_and!; [by apply wf_set_cell|done..|].
  intros p Hp. apply count_cells_set_cell_same; [done|by apply outside_false|apply Hp].
Qed.

Lemma flag_step_inv value g place : game_inv g -> game_inv (flag_step value g place).
Proof.
  intros [Hwf Hinv Hfirst]. unfold flag_step.
  destruct (try_set_flag_grid g place.1 place.2 value Hwf) as (Hwf' & Hc & Hfm & Hp).
  split; [done|..].
  - unfold revealed_inv in *. by rewrite Hc, Hp.
  - rewrite Hfm, Hp; done.
Qed.

Lemma flag_inv value places : forall g, game_inv g -> game_inv (flag g places value).
Proof.
  unfold flag. induction places as [|place places IH]; intros g Hg; [done|].
  simpl. by apply IH, flag_step_inv.
Qed.

Lemma restart_inv g : wf_grid (grid g) -> game_inv (restart g).
Proof.
  intros [Hr Hc]. unfold restart. split; simpl.
  - unfold wf_grid, rows, cols in *. rewrite length_fmap. split; [done|].
    rewrite (list_lookup_total_fmap (fmap (M:=list) reset) (grid g) 0%nat) by done.
    rewrite length_fmap.
    apply Forall_fmap. eapply Forall_impl; [exact Hc|].
    intros row Hrow. simpl. by rewrite length_fmap.
  - unfold revealed_inv; simpl. by rewrite count_cells_fmap, count_cells_never.
  - intros _. by rewrite count_cells_fmap, count_cells_never.
Qed.

Lemma new_game_inv m n hit first_move0 :
  (0 < m)%nat -> game_inv (new_game m n hit first_move0).
Proof.
  intros Hm. unfold new_game. split; simpl.
  - by apply wf_fill_grid.
  - unfold revealed_inv; simpl. by rewrite count_cells_fill_grid.
  - intros _. by rewrite count_cells_fill_grid.
Qed.

(** The first-move rule rewrites a cell kind while nothing is revealed
    yet, so the count of revealed safe cells is not disturbed. *)
Lemma reveal_step_inv g i j move g' :
  reveal_step g i j = Ok (move, g') -> game_inv g ->
  game_inv g' /\ first_move g' = false.
Proof.
  unfold reveal_step. intros H [Hwf Hinv Hfirst].
  apply bind_Ok in H as (g1 & H1 & H).
  apply bind_Ok in H as ([m g2] & H2 & H). simpl in H.
  assert (wf_grid (grid g1) /\ revealed_inv g1) as Hg1.
  { destruct (first_move g) eqn:Hfm; [|by simplify_eq].
    destruct (outside (grid g) i j) eqn:Ho; [done|]. simplify_eq. simpl.
    split; [by apply wf_set_cell|].
    unfold revealed_inv in *; simpl. rewrite Hinv. do 2 f_equal.
    pose proof (count_cells_revealed_split (grid g)) as S0.
    pose proof (count_cells_revealed_split (set_cell (set_type EMPTY) (grid g) i j)) as S1.
    rewrite (count_cells_set_cell_same is_revealed) in S1;
      [|done|by apply outside_false|done].
    rewrite Hfirst in S0, S1 by done. lia. }
  apply try_reveal_keeps in H2 as [K E]. simpl in *.
  destruct (K Hg1) as [Hwf2 Hinv2].
  assert (game_inv g2 /\ first_move g2 = false) as [Hg2 Hf2].
  { split; [split; [done..|]|done]. rewrite E. done. }
  destruct m; simplify_eq; try done.
  split; [|done]. destruct Hg2. by split.
Qed.

Lemma reveal_inv places :
  forall g g', reveal g places = Ok g' -> game_inv g -> game_inv g'.
Proof.
  induction places as [|place places IH]; intros g g' H Hg; simpl in H; [by simplify_eq|].
  apply bind_Ok in H as ([m g1] & H1 & H). simpl in H.
  apply reveal_step_inv in H1 as [Hg1 _]; [|done].
  destruct m; simplify_eq; eauto.
Qed.

Lemma turn_inv g cmd g' : turn g cmd = Ok g' -> game_inv g -> game_inv g'.
Proof.
  unfold turn. intros H Hg. apply bind_Ok in H as (g1 & H1 & [= <-]).
  assert (game_inv g1) as Hg1.
  { destruct cmd; simpl in H1; simplify_eq; try done.
    - by apply flag_inv.
    - by apply flag_inv.
    - by eapply reveal_inv.
    - apply restart_inv, Hg. }
  destruct (is_won g1); [|done]. destruct Hg1. by split.
Qed.

Lemma reachable_inv g : reachable g -> game_inv g.
Proof.
  induction 1 as [m n hit fm Hm Hn|g cmd g' _ IH _ Hturn].
  - by apply new_game_inv.
  - by eapply turn_inv.
Qed.

Lemma play_reachable cmds :
  forall g g', reachable g -> play g cmds = Ok g' -> reachable g'.
Proof.
  induction cmds as [|cmd cmds IH]; intros g g' Hg H; simpl in H; [by simplify_eq|].
  destruct (state g) eqn:Hs; [by simplify_eq|].
  apply bind_Ok in H as (g1 & H1 & H2).
  eapply IH; [|done]. by eapply reach_turn.
Qed.

Lemma after_reachable g cmds : reachable g -> reachable (after g cmds).
Proof.
  intros Hg. unfold after. destruct (play g cmds) eqn:H; [|done].
  by apply (play_reachable cmds g).
Qed.

(** ** Neighbour counts *)

Lemma count_neighbors_fold grid i j p (l : list (Z * Z)) :
  forall z, 0 <= z -> z + Z.of_nat (length l) < 2 ^ 32 ->
    fold_left
      (fun result dir =>
         if negb (outside grid (i + dir.1) (j + dir.2))
            && p (cell_at grid (i + dir.1) (j + dir.2))
         then u32 (result + 1)
         else result) l z
    = z + Z.of_nat (sum_list_with (fun d => Nat.b2n (neighbor_hit grid i j p d)) l).
Proof.
  induction l as [|d l IH]; intros z Hz Hlen; simpl in *; [lia|].
  unfold neighbor_hit at 1.
  destruct (negb (outside grid (i + d.1) (j + d.2))
            && p (cell_at grid (i + d.1) (j + d.2))); simpl.
  - unfold u32. rewrite Z.mod_small by lia. rewrite IH by lia. lia.
  - rewrite IH by lia. lia.
Qed.

Lemma count_neighbors_around g i j p :
  outside (grid g) i j = false ->
  count_neighbors (grid g) i j p = Z.of_nat (around p g i j).
Proof.
  intros Ho. unfold count_neighbors. rewrite Ho.
  rewrite count_neighbors_fold by (simpl; lia). rewrite Z.add_0_l. f_equal.
  unfold around, holds_at, neighbor_hit, dir8, Z.sub. simpl.
  change (- (1)) with (-1). rewrite !Z.add_0_r. lia.
Qed.

Lemma of_nat_eqb (a b : nat) : (Z.of_nat a =? Z.of_nat b) = (a =? b)%nat.
Proof.
  destruct (Nat.eqb_spec a b) as [->|Hne].
  - apply Z.eqb_refl.
  - apply Z.eqb_neq. lia.
Qed.

Lemma orthogonal_dir4 di dj : Z.abs di + Z.abs dj = 1 -> (di, dj) ∈ dir4.
Proof.
  intros H.
  assert (di = 0 /\ dj = 1 \/ di = 1 /\ dj = 0 \/ di = 0 /\ dj = -1 \/ di = -1 /\ dj = 0)
    as Hd by lia.
  destruct Hd as [[-> ->]|[[-> ->]|[[-> ->]|[-> ->]]]];
    apply list_elem_of_In; simpl; tauto.
Qed.

Lemma adjacent_dir8 di dj :
  -1 <= di <= 1 -> -1 <= dj <= 1 -> ~ (di = 0 /\ dj = 0) -> (di, dj) ∈ dir8.
Proof.
  intros Hi Hj Hne.
  assert (di = -1 \/ di = 0 \/ di = 1) as Hdi by lia.
  assert (dj = -1 \/ dj = 0 \/ dj = 1) as Hdj by lia.
  destruct Hdi as [-> | [-> | ->]], Hdj as [-> | [-> | ->]];
    try (exfalso; apply Hne; by split);
    apply list_elem_of_In; simpl; tauto.
Qed.

(** * The claims *)

(** ** Win detection *)

Lemma count_cells_all grid :
  wf_grid grid -> count_cells (fun _ => true) grid = (rows grid * cols grid)%nat.
Proof.
  intros [_ Hc]. unfold count_cells, rows. generalize dependent (cols grid).
  intros n Hc. induction Hc as [|row l Hrow _ IH]; simpl; [done|].
  rewrite IH. f_equal. rewrite <- Hrow. unfold count_row.
  clear. induction row as [|c row IH]; [done|]. simpl. by f_equal.
Qed.

Lemma count_cells_partition grid :
  count_cells (fun _ => true) grid
  = (count_cells is_bomb grid + count_cells safe_revealed grid
     + count_cells safe_hidden grid)%nat.
Proof.
  unfold count_cells. rewrite <- !sum_list_with_add. apply sum_list_with_ext.
  intros row. unfold count_row. rewrite <- !sum_list_with_add. apply sum_list_with_ext.
  intros c. unfold safe_revealed, safe_hidden.
  by destruct (is_revealed c), (is_bomb c).
Qed.

(** X25. On a rectangular grid of fewer than [2^32] cells, where
    [count_bombs] is the number of mines on the board and
    [count_revealed] the number of revealed cells that are no mine, the
    win test is right: it holds exactly when no safe cell is hidden. *)
Lemma is_won_iff_no_safe_hidden g :
  wf_grid (grid g) ->
  revealed_inv g ->
  count_bombs g = Z.of_nat (count_cells is_bomb (grid g)) ->
  Z.of_nat (rows (grid g) * cols (grid g)) < 2 ^ 32 ->
  is_won g = true <-> count_cells safe_hidden (grid g) = 0%nat.
Proof.
  intros Hwf Hinv Hb Hsmall. unfold is_won.
  pose proof (count_cells_all _ Hwf) as Hall.
  pose proof (count_cells_partition (grid g)) as Hpart.
  rewrite Hinv, Hb, Z.eqb_eq. unfold u32, u64.
  rewrite !Z.mod_small by lia. lia.
Qed.

(** C1. The win test compares [count_revealed] with [rows * cols - count_bombs],
    and this is meant to hold exactly when every non-mine cell is revealed,
    also after the first-move rule turned the first cell into [EMPTY]. The
    rule rewrites the cell kind and leaves [count_bombs] as it was, so the
    two part company. On [Mine, Empty], after [restart] and [reveal 0 0],
    no mine is left and every cell is revealed, yet [is_won] is false and
    the game stays [ACTIVE]; on [Mine, Mine, Empty], after the same
    commands, [is_won] is true and the game is [OVER] while the empty
    cell at (0, 2) is still hidden. *)
Theorem is_won_after_converted_mine :
  (exists g, play (mine_first false) [CmdRestart; CmdReveal [(0, 0)]] = Ok g
             /\ reachable g
             /\ count_cells safe_hidden (grid g) = 0%nat
             /\ count_cells is_bomb (grid g) = 0%nat
             /\ count_bombs g = 1
             /\ count_revealed g = 2
             /\ is_won g = false
             /\ state g = ACTIVE)
  /\ (exists g, play (two_mines false) [CmdRestart; CmdReveal [(0, 0)]] = Ok g
                /\ reachable g
                /\ safe_hidden (cell_at (grid g) 0 2) = true
                /\ count_cells safe_hidden (grid g) = 1%nat
                /\ count_bombs g = 2
                /\ count_revealed g = 1
                /\ is_won g = true
                /\ state g = OVER).
Proof.
  split.
  - eexists. split; [vm_compute; reflexivity|]. split; [|by vm_compute].
    apply (play_reachable [CmdRestart; CmdReveal [(0, 0)]] (mine_first false));
      [apply reach_new; lia|by vm_compute].
  - eexists. split; [vm_compute; reflexivity|]. split; [|by vm_compute].
    apply (play_reachable [CmdRestart; CmdReveal [(0, 0)]] (two_mines false));
      [apply reach_new; lia|by vm_compute].
Qed.

(** ** The revealed counter *)

(** C2, as stated, fails on the losing path of [try_reveal]: on
    [Empty, Mine, Empty], after [reveal 0 0] and [reveal 0 1] two cells
    are revealed and [count_revealed] is 1. *)
Lemma count_revealed_skips_lost_mine :
  exists g, play (strip true) [CmdReveal [(0, 0)]; CmdReveal [(0, 1)]] = Ok g
            /\ reachable g
            /\ state g = OVER
            /\ count_cells is_revealed (grid g) = 2%nat
            /\ count_revealed g = 1
            /\ count_revealed g <> u32 (Z.of_nat (count_cells is_revealed (grid g))).
Proof.
  eexists. split; [vm_compute; reflexivity|]. split; [|by vm_compute].
  apply (play_reachable [CmdReveal [(0, 0)]; CmdReveal [(0, 1)]] (strip true));
    [apply reach_new; lia|by vm_compute].
Qed.

(** C2, amended. In every reachable state [count_revealed] is the number
    of revealed cells that are no mine, modulo [2^32]; it is the number
    of all revealed cells as long as no mine is revealed. [try_reveal]
    (its losing path included), [expand], [try_set_flag] and [restart]
    keep the equality. On its losing path, that is on an unflagged mine
    of the grid, [try_reveal] answers [LosingMove], marks the mine
    revealed and leaves [count_revealed] as it was: a mine that was
    hidden makes one more revealed cell that the counter does not
    count. *)
Theorem count_revealed_counts_safe_cells (g : Game) :
  reachable g ->
  count_revealed g = u32 (Z.of_nat (count_cells safe_revealed (grid g)))
  /\ (count_cells revealed_bomb (grid g) = 0%nat ->
      count_revealed g = u32 (Z.of_nat (count_cells is_revealed (grid g))))
  /\ (forall i j move g', try_reveal g i j = Ok (move, g') -> revealed_inv g')
  /\ (forall i j,
        inside (grid g) i j ->
        is_flagged (cell_at (grid g) i j) = false ->
        is_bomb (cell_at (grid g) i j) = true ->
        exists g',
          try_reveal g i j = Ok (LosingMove, g')
          /\ revealed g' i j = true
          /\ count_revealed g' = count_revealed g
          /\ (forall x y, inside (grid g) x y -> (x, y) <> (i, j) ->
                          cell_at (grid g') x y = cell_at (grid g) x y)
          /\ (revealed g i j = false ->
              count_cells is_revealed (grid g')
              = S (count_cells is_revealed (grid g))
              /\ count_cells revealed_bomb (grid g')
                 = S (count_cells revealed_bomb (grid g))))
  /\ (forall i j g', expand g i j = Ok g' -> revealed_inv g')
  /\ (forall i j value, revealed_inv (try_set_flag g i j value).2)
  /\ revealed_inv (restart g).
Proof.
  intros [Hwf Hinv _]%reachable_inv. split_and!.
  - exact Hinv.
  - intros H0. rewrite count_cells_revealed_split, H0, Nat.add_0_r. exact Hinv.
  - intros i j move g' H. by apply try_reveal_keeps in H as [[_ ?] _].
  - intros i j Hin Hf Hb. eexists. unfold try_reveal.
    rewrite (proj2 (outside_false _ _ _) Hin), Hf, Hb.
    split; [reflexivity|]. unfold revealed. simpl. split_and!.
    + by rewrite cell_at_set_cell_eq.
    + done.
    + intros x y Hxy Hne. apply cell_at_set_cell_ne. intros [H1 H2].
      apply Hne. unfold inside in Hin, Hxy. f_equal; lia.
    + intros Hr.
      pose proof (count_cells_set_cell is_revealed mark_revealed _ i j Hwf Hin) as H1.
      pose proof (count_cells_set_cell revealed_bomb mark_revealed _ i j Hwf Hin) as H2.
      assert (revealed_bomb (cell_at (grid g) i j) = false) as E1
        by (unfold revealed_bomb; by rewrite Hr).
      assert (revealed_bomb (mark_revealed (cell_at (grid g) i j)) = true) as E2
        by (unfold revealed_bomb, is_bomb in *; simpl; by destruct (type _)).
      rewrite E1, E2 in H2. rewrite Hr in H1. simpl in H1, H2. lia.
  - intros i j g' H. by apply expand_keeps in H as [[_ ?] _].
  - intros i j value.
    destruct (try_set_flag_grid g i j value Hwf) as (_ & Hc & _ & Hp).
    unfold revealed_inv in *. by rewrite Hc, Hp.
  - by apply restart_inv.
Qed.

Lemma count_revealed_counts_safe_cells_witness :
  exists g',
    try_reveal (after (strip true) [CmdReveal [(0, 0)]]) 0 1 = Ok (LosingMove, g')
    /\ revealed g' 0 1 = true
    /\ count_revealed g' = 1
    /\ count_cells is_revealed (grid g') = 2%nat.
Proof.
  destruct (count_revealed_counts_safe_cells (after (strip true) [CmdReveal [(0, 0)]]))
    as (_ & _ & _ & Hloss & _); [apply after_reachable, reach_new; lia|].
  destruct (Hloss 0 1) as (g' & H & Hr & Hc & _ & Hn);
    [by vm_compute|reflexivity|reflexivity|].
  exists g'. split_and!; [exact H|exact Hr|by rewrite Hc|].
  by rewrite (proj1 (Hn eq_refl)).
Defined.

(** ** The flag counter *)

(** C3. [count_flagged] is meant to be the number of flagged cells, also
    across repeated [set_flag] calls; [try_set_flag] adds or subtracts one
    without looking at the flag the cell has. On [Empty, Mine, Empty],
    [flag 0 1] twice leaves one flagged cell and [count_flagged = 2];
    [unflag 0 1] on the fresh board leaves none and
    [count_flagged = 4294967295]. *)
Theorem count_flagged_drifts :
  (exists g, play (strip true) [CmdFlag [(0, 1)]; CmdFlag [(0, 1)]] = Ok g
             /\ reachable g
             /\ count_cells is_flagged (grid g) = 1%nat
             /\ count_flagged g = 2)
  /\ (exists g, play (strip true) [CmdUnflag [(0, 1)]] = Ok g
                /\ reachable g
                /\ count_cells is_flagged (grid g) = 0%nat
                /\ count_flagged g = 4294967295).
Proof.
  split.
  - eexists. split; [vm_compute; reflexivity|]. split; [|by vm_compute].
    apply (play_reachable [CmdFlag [(0, 1)]; CmdFlag [(0, 1)]] (strip true));
      [apply reach_new; lia|by vm_compute].
  - eexists. split; [vm_compute; reflexivity|]. split; [|by vm_compute].
    apply (play_reachable [CmdUnflag [(0, 1)]] (strip true));
      [apply reach_new; lia|by vm_compute].
Qed.

(** ** The first-move rule *)

Lemma try_reveal_type g i j move g' :
  try_reveal g i j = Ok (move, g') ->
  forall x y, type (cell_at (grid g') x y) = type (cell_at (grid g) x y).
Proof.
  unfold try_reveal. intros H x y.
  destruct (outside (grid g) i j); [by simplify_eq|].
  destruct (is_flagged (cell_at (grid g) i j)); [by simplify_eq|].
  destruct (is_bomb (cell_at (grid g) i j)).
  { simplify_eq. simpl. by apply (cell_at_set_cell_proj type). }
  destruct (is_revealed (cell_at (grid g) i j)); simpl in H.
  - destruct (unsettled g i j); [by simplify_eq|].
    apply bind_Ok in H as (g1 & H1 & [= <- <-]).
    revert H1. apply (for_dirs_rel (fun a b => type (cell_at (grid b) x y)
                                               = type (cell_at (grid a) x y)));
      [done|congruence|].
    intros a u v b Hab. apply (grows_type _ _ (expand_fuel_grows _ _ _ _ _ Hab)).
  - apply bind_Ok in H as (g1 & H1 & [= <- <-]). simpl.
    rewrite (cell_at_set_cell_proj type) by done.
    apply (grows_type _ _ (expand_fuel_grows _ _ _ _ _ H1)).
Qed.

(** X26. With [first_move] set, as [restart] leaves it, a reveal inside
    the grid cannot lose. *)
Lemma first_reveal_safe g i j :
  wf_grid (grid g) -> first_move g = true -> inside (grid g) i j ->
  exists move g',
    reveal_step g i j = Ok (move, g')
    /\ move <> LosingMove
    /\ first_move g' = false
    /\ is_bomb (cell_at (grid g') i j) = false.
Proof.
  intros Hwf Hfm Hin. unfold reveal_step. rewrite Hfm.
  pose proof Hin as Ho. apply outside_false in Ho. rewrite Ho. simpl.
  set (g2 := with_first_move _ false).
  assert (wf_grid (grid g2)) as Hwf2 by (by apply wf_set_cell).
  assert (is_bomb (cell_at (grid g2) i j) = false) as Hb2.
  { unfold g2; simpl. by rewrite cell_at_set_cell_eq. }
  destruct (try_reveal_total g2 i j Hwf2) as (move & g' & H). rewrite H. simpl.
  pose proof (try_reveal_keeps _ _ _ _ _ H) as [_ E].
  pose proof (try_reveal_type _ _ _ _ _ H i j) as T.
  assert (move <> LosingMove) as Hm.
  { intros ->. unfold try_reveal in H.
    destruct (outside (grid g2) i j); [done|].
    destruct (is_flagged (cell_at (grid g2) i j)); [done|].
    rewrite Hb2 in H.
    destruct (negb (is_revealed (cell_at (grid g2) i j))); simpl in H.
    - by apply bind_Ok in H as (? & _ & ?).
    - destruct (unsettled g2 i j); [done|]. by apply bind_Ok in H as (? & _ & ?). }
  exists move, g'. destruct move; try done; split_and!; try done;
    unfold is_bomb in *; by rewrite T.
Qed.

(** C4. The first reveal of a freshly constructed game is meant to be
    safe. [Game::Game] does not initialise [first_move] ([restart] does);
    when the member happens to read [false], the rule is skipped: on
    [Empty, Mine, Empty], the first command [reveal 0 1] loses. After
    [restart] the same reveal succeeds on a cell made [EMPTY]. With
    [first_move] set, a first reveal outside the grid writes out of
    range before [try_reveal] can answer [OutBounds]. *)
Theorem first_reveal_of_new_game_can_lose :
  (exists g, play (strip false) [CmdReveal [(0, 1)]] = Ok g
             /\ reachable g
             /\ revealed_bomb (cell_at (grid g) 0 1) = true
             /\ state g = OVER)
  /\ (exists g, reveal_step (strip false) 0 1 = Ok (LosingMove, g))
  /\ (exists g, reveal_step (restart (strip false)) 0 1 = Ok (Success, g)
                /\ type (cell_at (grid g) 0 1) = EMPTY
                /\ first_move g = false)
  /\ reveal_step (restart (strip false)) 0 3 = Err OutOfRange.
Proof.
  split_and!.
  - eexists. split; [vm_compute; reflexivity|]. split; [|by vm_compute].
    apply (play_reachable [CmdReveal [(0, 1)]] (strip false));
      [apply reach_new; lia|by vm_compute].
  - eexists. vm_compute. reflexivity.
  - eexists. split; [vm_compute; reflexivity|]. by vm_compute.
  - by vm_compute.
Qed.

(** ** Mines remaining *)

(** C5. The number reported is meant to be [max(count_bombs - count_flagged, 0)],
    zero once more cells are flagged than there are mines. The
    subtraction is done on [uint32_t], so it wraps before [std::max]
    sees it: on [Empty, Mine, Empty] with (0, 0) and (0, 1) flagged,
    one mine and two flags give [4294967295], not 0. *)
Theorem bombs_left_wraps :
  exists g, play (strip true) [CmdFlag [(0, 0); (0, 1)]] = Ok g
            /\ reachable g
            /\ count_bombs g = 1
            /\ count_flagged g = 2
            /\ count_cells is_flagged (grid g) = 2%nat
            /\ print_bombs_left g = 4294967295
            /\ Z.max (count_bombs g - count_flagged g) 0 = 0.
Proof.
  eexists. split; [vm_compute; reflexivity|]. split; [|by vm_compute].
  apply (play_reachable [CmdFlag [(0, 0); (0, 1)]] (strip true));
    [apply reach_new; lia|by vm_compute].
Qed.

(** ** Flood expansion *)

(** C6, as stated, fails: flags and cells revealed earlier stop the fill
    inside a region of zero cells. On two empty cells with (0, 1)
    flagged, expansion from (0, 0) leaves (0, 1) hidden. On three empty
    cells, after [flag 0 0 0 2], [reveal 0 1] and [unflag 0 0 0 2], no
    flag is left, and expansion from (0, 0) stops at the revealed (0, 1)
    and leaves (0, 2) hidden. *)
Lemma expansion_stops_inside_zero_region :
  (exists g g', play (empty_pair true) [CmdFlag [(0, 1)]] = Ok g
                /\ reachable g
                /\ connected4 (zero_cell g) 0 0 0 1
                /\ expand g 0 0 = Ok g'
                /\ revealed g' 0 1 = false)
  /\ (exists g g', play (empty_triple true)
                     [CmdFlag [(0, 0); (0, 2)]; CmdReveal [(0, 1)];
                      CmdUnflag [(0, 0); (0, 2)]] = Ok g
                  /\ reachable g
                  /\ count_cells is_flagged (grid g) = 0%nat
                  /\ connected4 (zero_cell g) 0 0 0 2
                  /\ expand g 0 0 = Ok g'
                  /\ revealed g' 0 2 = false).
Proof.
  split.
  - eexists _, _. split; [vm_compute; reflexivity|]. split_and!.
    + apply (play_reachable [CmdFlag [(0, 1)]] (empty_pair true));
        [apply reach_new; lia|by vm_compute].
    + apply (conn_step _ 0 0 0 0 (0, 1)).
      * apply conn_start. by vm_compute.
      * unfold dir4. apply elem_of_cons. by left.
      * by vm_compute.
    + vm_compute. reflexivity.
    + by vm_compute.
  - eexists _, _. split; [vm_compute; reflexivity|]. split_and!.
    + apply (play_reachable [CmdFlag [(0, 0); (0, 2)]; CmdReveal [(0, 1)];
                             CmdUnflag [(0, 0); (0, 2)]] (empty_triple true));
        [apply reach_new; lia|by vm_compute].
    + by vm_compute.
    + apply (conn_step _ 0 0 0 1 (0, 1)).
      * apply (conn_step _ 0 0 0 0 (0, 1)).
        -- apply conn_start. by vm_compute.
        -- unfold dir4. apply elem_of_cons. by left.
        -- by vm_compute.
      * unfold dir4. apply elem_of_cons. by left.
      * by vm_compute.
    + vm_compute. reflexivity.
    + by vm_compute.
Qed.

(** C6, amended. On a well-formed grid, expansion from [(i, j)] returns,
    and afterwards every cell joined to [(i, j)] by orthogonal steps
    through zero cells that were hidden, unflagged and without a flagged
    neighbour is revealed; the revealed bit of every mine is as it was,
    whatever the start and the flags. On the 2x2 board without mines,
    revealing (0, 0) answers [Success] with all four cells revealed,
    [count_revealed = 4] and [is_won] true. *)
Theorem expand_reveals_calm_region :
  (forall g i j,
      wf_grid (grid g) ->
      exists g', expand g i j = Ok g'
        /\ (forall x y, connected4 (calm_cell g) i j x y -> revealed g' x y = true)
        /\ (forall x y, inside (grid g) x y -> is_bomb (cell_at (grid g) x y) = true ->
                        revealed g' x y = revealed g x y))
  /\ (forall first_move0,
         exists g', reveal_step (square first_move0) 0 0 = Ok (Success, g')
           /\ count_cells is_revealed (grid g') = 4%nat
           /\ count_revealed g' = 4
           /\ is_won g' = true).
Proof.
  split.
  - intros g i j Hwf. destruct (expand_total g i j Hwf) as (g' & H & _).
    exists g'. split_and!; [done|..].
    + intros x y. by apply (expand_reveals_region g i j).
    + intros x y. by apply (expand_spares_bombs g i j).
  - intros [|]; eexists; (split; [vm_compute; reflexivity|by vm_compute]).
Qed.

Lemma expand_reveals_calm_region_witness :
  exists g', expand (square true) 0 0 = Ok g' /\ revealed g' 1 1 = true.
Proof.
  destruct (proj1 expand_reveals_calm_region (square true) 0 0)
    as (g' & H & Hregion & _); [split; [simpl; lia|by repeat constructor]|].
  exists g'. split; [exact H|]. apply Hregion.
  apply (conn_step _ 0 0 1 0 (0, 1)).
  - apply (conn_step _ 0 0 0 0 (1, 0)).
    + apply conn_start. by vm_compute.
    + unfold dir4. apply elem_of_cons. right. apply elem_of_cons. by left.
    + by vm_compute.
  - unfold dir4. apply elem_of_cons. by left.
  - by vm_compute.
Defined.

(** C7. Past the guard, [expand] marks the cell and counts it; it then
    goes on into the four orthogonal neighbours (i, j+1), (i+1, j),
    (i, j-1) and (i-1, j) exactly when the number of flagged cells and
    the number of mines among the eight neighbours agree. When they
    differ the result is the marked and counted cell and nothing else;
    when they agree every orthogonal neighbour that is in the grid, no
    mine and unflagged is revealed afterwards. On [Empty, Mine, Empty]
    without flags, revealing (0, 0) answers [Success] with that one cell
    revealed and [count_revealed = 1]; then revealing (0, 1) answers
    [LosingMove] and the state is [OVER]. Flags count: on the two by two
    board with the mine at (1, 1) flagged, expanding from (0, 0) finds
    one flag for one mine and reveals (0, 1) and (1, 0) as well; on the
    empty two by two board with a flag on (1, 1) it finds one flag for no
    mine and reveals (0, 0) alone, where without the flag it reveals all
    four cells. The steps are orthogonal: on the two by two board with
    mines at (0, 1) and (1, 0), both flagged, expanding from (0, 0)
    finds two flags for two mines and still leaves (1, 1) hidden. *)
Theorem expand_recurses_iff_settled :
  (forall fuel g i j,
      blocked g i j = false ->
      expand_fuel (S fuel) g i j
      = if count_flagged_neighbors (grid (reveal_counted g i j)) i j
           =? count_bomb_neighbors (grid (reveal_counted g i j)) i j
        then for_dirs dir4 (expand_fuel fuel) (reveal_counted g i j) i j
        else Ok (reveal_counted g i j))
  /\ (forall g i j,
         wf_grid (grid g) -> blocked g i j = false ->
         exists g', expand g i j = Ok g'
           /\ revealed g' i j = true
           /\ (around is_flagged g i j <> around is_bomb g i j ->
               g' = reveal_counted g i j)
           /\ (around is_flagged g i j = around is_bomb g i j ->
               forall di dj, Z.abs di + Z.abs dj = 1 ->
                             passable g (i + di) (j + dj) ->
                             revealed g' (i + di) (j + dj) = true))
  /\ (forall first_move0,
         exists g1 g2,
           reveal_step (strip first_move0) 0 0 = Ok (Success, g1)
           /\ revealed g1 0 0 = true
           /\ count_cells is_revealed (grid g1) = 1%nat
           /\ count_revealed g1 = 1
           /\ reveal_step g1 0 1 = Ok (LosingMove, g2)
           /\ state g2 = OVER)
  /\ (exists g g',
         play (corner_mine true) [CmdFlag [(1, 1)]] = Ok g
         /\ around is_flagged g 0 0 = 1%nat /\ around is_bomb g 0 0 = 1%nat
         /\ expand g 0 0 = Ok g'
         /\ revealed g' 0 0 = true /\ revealed g' 0 1 = true
         /\ revealed g' 1 0 = true /\ revealed g' 1 1 = false
         /\ count_revealed g' = 3)
  /\ (exists g g',
         play (square true) [CmdFlag [(1, 1)]] = Ok g
         /\ around is_flagged g 0 0 = 1%nat /\ around is_bomb g 0 0 = 0%nat
         /\ expand g 0 0 = Ok g'
         /\ g' = reveal_counted g 0 0
         /\ count_cells is_revealed (grid g') = 1%nat
         /\ count_revealed g' = 1)
  /\ (exists g',
         expand (square true) 0 0 = Ok g'
         /\ count_cells is_revealed (grid g') = 4%nat
         /\ count_revealed g' = 4)
  /\ (exists g g',
         play (cross_mines true) [CmdFlag [(0, 1); (1, 0)]] = Ok g
         /\ around is_flagged g 0 0 = 2%nat /\ around is_bomb g 0 0 = 2%nat
         /\ passable g 1 1
         /\ expand g 0 0 = Ok g'
         /\ revealed g' 0 0 = true /\ revealed g' 1 1 = false
         /\ count_revealed g' = 1).
Proof.
  split_and!.
  - intros fuel g i j Hb. simpl. rewrite Hb. unfold unsettled.
    by destruct (_ =? _).
  - intros g i j Hwf Hb. destruct (expand_total g i j Hwf) as (g' & H & _).
    pose proof Hb as [Hpass Hr]%blocked_false.
    pose proof (proj1 Hpass) as Ho.
    exists g'. split_and!; [done|..].
    + by apply (expand_reveals_start _ _ _ _ Hwf H).
    + intros Hne. unfold expand in H. simpl in H. rewrite Hb in H.
      rewrite (unsettled_grows _ _ _ _ (grows_reveal_counted _ _ _ Hb)) in H.
      unfold unsettled, count_flagged_neighbors, count_bomb_neighbors in H.
      rewrite (count_neighbors_around g i j is_flagged Ho),
        (count_neighbors_around g i j is_bomb Ho), of_nat_eqb in H.
      apply Nat.eqb_neq in Hne. rewrite Hne in H. simpl in H. by simplify_eq.
    + intros Heq di dj Hd Hp.
      destruct (expand_fuel_closed _ _ _ _ _ Hwf H) as [[G C] R].
      apply (C i j (proj1 (outside_false _ _ _) Ho) Hr (R Hpass)) with (d := (di, dj)).
      * unfold unsettled, count_flagged_neighbors, count_bomb_neighbors.
        rewrite (count_neighbors_around g i j is_flagged Ho),
          (count_neighbors_around g i j is_bomb Ho), of_nat_eqb, Heq.
        by rewrite Nat.eqb_refl.
      * by apply orthogonal_dir4.
      * exact Hp.
  - intros [|]; eexists _, _; split_and!;
      try (vm_compute; reflexivity); by vm_compute.
  - eexists _, _. split; [vm_compute; reflexivity|].
    split_and!; try (vm_compute; reflexivity); by vm_compute.
  - eexists _, _. split; [vm_compute; reflexivity|].
    split_and!; try (vm_compute; reflexivity); by vm_compute.
  - eexists. split; [vm_compute; reflexivity|]. by vm_compute.
  - eexists _, _. split; [vm_compute; reflexivity|].
    split_and!; try (vm_compute; reflexivity); by vm_compute.
Qed.

Lemma expand_recurses_iff_settled_witness :
  exists g',
    expand (after (corner_mine true) [CmdFlag [(1, 1)]]) 0 0 = Ok g'
    /\ revealed g' 0 0 = true
    /\ revealed g' 0 1 = true
    /\ revealed g' 1 0 = true.
Proof.
  destruct (proj1 (proj2 expand_recurses_iff_settled)
              (after (corner_mine true) [CmdFlag [(1, 1)]]) 0 0)
    as (g' & H & Hs & _ & Hrec).
  - split; [vm_compute; lia|vm_compute; by repeat constructor].
  - reflexivity.
  - exists g'. split_and!; [exact H|exact Hs|..].
    + apply (Hrec eq_refl 0 1); [reflexivity|by vm_compute].
    + apply (Hrec eq_refl 1 0); [reflexivity|by vm_compute].
Defined.

(** ** Termination *)

Lemma reveal_step_returns g i j :
  wf_grid (grid g) ->
  (exists move g', reveal_step g i j = Ok (move, g'))
  \/ (reveal_step g i j = Err OutOfRange
      /\ first_move g = true /\ outside (grid g) i j = true).
Proof.
  intros Hwf. unfold reveal_step.
  destruct (first_move g) eqn:Hfm.
  - destruct (outside (grid g) i j) eqn:Ho; [by right|]. left. simpl.
    set (g2 := with_first_move _ false).
    destruct (try_reveal_total g2 i j) as (move & g' & ->); [by apply wf_set_cell|].
    simpl. destruct move; eauto.
  - left. simpl.
    destruct (try_reveal_total (with_first_move g false) i j) as (move & g' & ->); [done|].
    simpl. destruct move; eauto.
Qed.

(** C8. On every well-formed grid and from every start, [expand] returns
    within a recursion depth of one more than [rows * cols]. Its journal
    of marked cells has no cell twice, holds cells of the grid only,
    each hidden before and revealed after, so it is no longer than
    [rows * cols]; [count_revealed] moves by the length of the journal and
    the number of hidden cells drops by it. [try_reveal] returns as well,
    and the loop body of [reveal] returns or stops at its unguarded
    write, never for want of fuel. *)
Theorem expand_terminates (g : Game) (i j : Z) :
  wf_grid (grid g) ->
  exists g' log,
    expand g i j = Ok g'
    /\ expand_log (S (rows (grid g) * cols (grid g))) (g, []) i j = Ok (g', log)
    /\ NoDup log
    /\ (length log <= rows (grid g) * cols (grid g))%nat
    /\ (forall c, c ∈ log ->
          inside (grid g) c.1 c.2
          /\ revealed g c.1 c.2 = false /\ revealed g' c.1 c.2 = true)
    /\ u32 (count_revealed g') = u32 (count_revealed g + Z.of_nat (length log))
    /\ (length log + hidden g' = hidden g)%nat
    /\ (exists move g'', try_reveal g i j = Ok (move, g''))
    /\ ((exists move g'', reveal_step g i j = Ok (move, g''))
        \/ (reveal_step g i j = Err OutOfRange
            /\ first_move g = true /\ outside (grid g) i j = true)).
Proof.
  intros Hwf. destruct (expand_total g i j Hwf) as (g' & H & _).
  pose proof (expand_log_erase (S (rows (grid g) * cols (grid g))) (g, []) i j) as E.
  change (expand_fuel _ (g, []).1 i j) with (expand g i j) in E. rewrite H in E.
  destruct (expand_log _ (g, []) i j) as [[g1 log]|e] eqn:HL; [|done].
  simpl in E. assert (g1 = g') as -> by congruence. clear E.
  destruct (expand_log_journal g _ Hwf _ _ _ _ HL (journal_ok_start g))
    as [_ Hnd Hcells Hh Hc]. simpl in *.
  exists g', log. split_and!; try done.
  - pose proof (hidden_bound g Hwf). lia.
  - by apply try_reveal_total.
  - by apply reveal_step_returns.
Qed.

Lemma expand_terminates_witness :
  exists g' log,
    expand (square true) 0 0 = Ok g'
    /\ expand_log (S (rows (grid (square true)) * cols (grid (square true))))
                  (square true, []) 0 0 = Ok (g', log)
    /\ NoDup log
    /\ (length log <= rows (grid (square true)) * cols (grid (square true)))%nat
    /\ (forall c, c ∈ log ->
          inside (grid (square true)) c.1 c.2
          /\ revealed (square true) c.1 c.2 = false /\ revealed g' c.1 c.2 = true)
    /\ u32 (count_revealed g') = u32 (count_revealed (square true) + Z.of_nat (length log))
    /\ (length log + hidden g' = hidden (square true))%nat
    /\ (exists move g'', try_reveal (square true) 0 0 = Ok (move, g''))
    /\ ((exists move g'', reveal_step (square true) 0 0 = Ok (move, g''))
        \/ (reveal_step (square true) 0 0 = Err OutOfRange
            /\ first_move (square true) = true
            /\ outside (grid (square true)) 0 0 = true)).
Proof.
  apply (expand_terminates (square true) 0 0).
  split; [simpl; lia|]. by repeat constructor.
Defined.

(** ** Rejected moves *)

(** C9. For a cell of the grid: [try_reveal] on a flagged cell answers
    [NA] and returns the game as it was, mine or not; [try_set_flag] on a
    revealed cell answers [NA] and returns the game as it was, so
    [count_flagged] does not move. *)
Theorem illegal_moves_rejected (g : Game) (i j : Z) :
  inside (grid g) i j ->
  (is_flagged (cell_at (grid g) i j) = true -> try_reveal g i j = Ok (NA, g))
  /\ (is_revealed (cell_at (grid g) i j) = true ->
      forall value,
        try_set_flag g i j value = (NA, g)
        /\ count_flagged (try_set_flag g i j value).2 = count_flagged g).
Proof.
  intros Hin%outside_false. split.
  - intros Hf. unfold try_reveal. by rewrite Hin, Hf.
  - intros Hr value. unfold try_set_flag. by rewrite Hin, Hr.
Qed.

Lemma illegal_moves_rejected_witness :
  try_reveal (flag (strip true) [(0, 1)] true) 0 1
  = Ok (NA, flag (strip true) [(0, 1)] true).
Proof.
  apply (illegal_moves_rejected (flag (strip true) [(0, 1)] true) 0 1).
  - by vm_compute.
  - reflexivity.
Defined.

(** ** Setting a flag *)

(** C10. On a hidden cell of the grid [try_set_flag] answers [Success],
    the cell's flag becomes [value], and [count_flagged] moves by one
    on [uint32_t]: up for [true], down for [false] and from 0 round to
    [2^32 - 1], whatever flag the cell had. *)
Theorem set_flag_adjusts_count (g : Game) (i j : Z) (value : bool) :
  wf_grid (grid g) -> inside (grid g) i j ->
  is_revealed (cell_at (grid g) i j) = false ->
  exists g',
    try_set_flag g i j value = (Success, g')
    /\ is_flagged (cell_at (grid g') i j) = value
    /\ count_flagged g' = u32 (count_flagged g + (if value then 1 else -1))
    /\ (value = true -> 0 <= count_flagged g < 2 ^ 32 - 1 ->
        count_flagged g' = count_flagged g + 1)
    /\ (value = false -> 0 < count_flagged g < 2 ^ 32 ->
        count_flagged g' = count_flagged g - 1)
    /\ (value = false -> count_flagged g = 0 -> count_flagged g' = 2 ^ 32 - 1).
Proof.
  intros Hwf Hin Hr. pose proof Hin as Ho%outside_false.
  unfold try_set_flag. rewrite Ho, Hr. eexists. split; [reflexivity|]. simpl.
  split_and!.
  - by rewrite cell_at_set_cell_eq.
  - done.
  - intros -> Hc. unfold u32. rewrite Z.mod_small; lia.
  - intros -> Hc. unfold u32. rewrite Z.mod_small; lia.
  - intros -> ->. reflexivity.
Qed.

Lemma set_flag_adjusts_count_witness :
  exists g',
    try_set_flag (flag (strip true) [(0, 1)] true) 0 1 true = (Success, g')
    /\ is_flagged (cell_at (grid g') 0 1) = true
    /\ count_flagged g' = u32 (count_flagged (flag (strip true) [(0, 1)] true) + 1)
    /\ (true = true -> 0 <= count_flagged (flag (strip true) [(0, 1)] true) < 2 ^ 32 - 1 ->
        count_flagged g' = count_flagged (flag (strip true) [(0, 1)] true) + 1)
    /\ (true = false -> 0 < count_flagged (flag (strip true) [(0, 1)] true) < 2 ^ 32 ->
        count_flagged g' = count_flagged (flag (strip true) [(0, 1)] true) - 1)
    /\ (true = false -> count_flagged (flag (strip true) [(0, 1)] true) = 0 ->
        count_flagged g' = 2 ^ 32 - 1).
Proof.
  apply (set_flag_adjusts_count (flag (strip true) [(0, 1)] true) 0 1 true).
  - split; [vm_compute; lia|]. vm_compute. by repeat constructor.
  - by vm_compute.
  - reflexivity.
Defined.

(** * Further properties of the engine *)

(** ** Writes to one cell *)

Lemma cell_at_set_cell_cases f grid i j x y :
  cell_at (set_cell f grid i j) x y = cell_at grid x y
  \/ cell_at (set_cell f grid i j) x y = f (cell_at grid x y).
Proof.
  unfold cell_at, set_cell. rewrite list_lookup_total_alter.
  case_decide as H1; [|by left]. destruct H1 as [-> _].
  rewrite list_lookup_total_alter. case_decide as H2; [|by left].
  destruct H2 as [<- _]. by right.
Qed.

Lemma set_cell_fixed f grid i j :
  f (cell_at grid i j) = cell_at grid i j -> set_cell f grid i j = grid.
Proof.
  intros Hf. unfold set_cell.
  rewrite <- (list_alter_id id grid (Z.to_nat i)) at 2 by done.
  apply list_alter_ext; [|done]. intros row Hrow. simpl.
  rewrite <- (list_alter_id id row (Z.to_nat j)) at 2 by done.
  apply list_alter_ext; [|done]. intros c Hc. simpl.
  unfold cell_at in Hf.
  rewrite (list_lookup_total_correct _ _ _ Hrow) in Hf.
  by rewrite (list_lookup_total_correct _ _ _ Hc) in Hf.
Qed.

Lemma mark_revealed_fixed c : is_revealed c = true -> mark_revealed c = c.
Proof. destruct c as [t f r]. simpl. by intros ->. Qed.

Lemma with_grid_same g : with_grid g (grid g) = g.
Proof. by destruct g. Qed.

(** ** The answers of [try_reveal] *)

(** Either the move did not lose and changed the game as a flood fill
    may, or it lost and wrote the revealed bit of the mine. *)
Lemma try_reveal_cases g i j move g' :
  wf_grid (grid g) -> try_reveal g i j = Ok (move, g') ->
  (move <> LosingMove /\ grows g g')
  \/ (move = LosingMove
      /\ g' = with_grid g (set_cell mark_revealed (grid g) i j)
      /\ inside (grid g) i j
      /\ is_flagged (cell_at (grid g) i j) = false
      /\ is_bomb (cell_at (grid g) i j) = true).
Proof.
  intros Hwf H. unfold try_reveal in H.
  destruct (outside (grid g) i j) eqn:Ho; [simplify_eq; left; split; [done|apply grows_refl]|].
  destruct (is_flagged (cell_at (grid g) i j)) eqn:Hf;
    [simplify_eq; left; split; [done|apply grows_refl]|].
  destruct (is_bomb (cell_at (grid g) i j)) eqn:Hb.
  { simplify_eq. right. split_and!; try done. by apply outside_false. }
  left. destruct (is_revealed (cell_at (grid g) i j)) eqn:Hr; simpl in H.
  - destruct (unsettled g i j); [simplify_eq; split; [done|apply grows_refl]|].
    apply bind_Ok in H as (g1 & H1 & [= <- <-]). split; [done|].
    revert H1. apply (for_dirs_rel grows); [apply grows_refl|apply grows_trans|].
    intros a x y b. apply expand_fuel_grows.
  - apply bind_Ok in H as (g1 & H1 & [= <- <-]). split; [done|].
    rewrite set_cell_fixed, with_grid_same; [by apply expand_fuel_grows in H1|].
    apply mark_revealed_fixed.
    apply (expand_reveals_start g i j); [done..|]. by split_and!.
Qed.

(** X1. [try_reveal] always answers on a well-formed grid, and the answer
    is decided by the place alone: [OutBounds] outside the grid, [NA] on
    a flagged cell, [LosingMove] on an unflagged mine, [Success] on every
    other cell; the first two leave the game as it was. *)
Theorem try_reveal_outcomes (g : Game) (i j : Z) :
  wf_grid (grid g) ->
  exists move g',
    try_reveal g i j = Ok (move, g')
    /\ (move = OutBounds <-> outside (grid g) i j = true)
    /\ (move = NA <->
        outside (grid g) i j = false /\ is_flagged (cell_at (grid g) i j) = true)
    /\ (move = LosingMove <->
        outside (grid g) i j = false /\ is_flagged (cell_at (grid g) i j) = false
        /\ is_bomb (cell_at (grid g) i j) = true)
    /\ (move = Success <->
        outside (grid g) i j = false /\ is_flagged (cell_at (grid g) i j) = false
        /\ is_bomb (cell_at (grid g) i j) = false)
    /\ (move = OutBounds \/ move = NA -> g' = g).
Proof.
  intros Hwf. destruct (try_reveal_total g i j Hwf) as (move & g' & H).
  exists move, g'. split; [done|]. unfold try_reveal in H.
  destruct (outside (grid g) i j); [simplify_eq; intuition (congruence || discriminate)|].
  destruct (is_flagged (cell_at (grid g) i j)); [simplify_eq; intuition (congruence || discriminate)|].
  destruct (is_bomb (cell_at (grid g) i j)); [simplify_eq; intuition (congruence || discriminate)|].
  destruct (negb (is_revealed (cell_at (grid g) i j))); simpl in H.
  - apply bind_Ok in H as (g1 & _ & ?). simplify_eq. intuition (congruence || discriminate).
  - destruct (unsettled g i j); [simplify_eq; intuition (congruence || discriminate)|].
    apply bind_Ok in H as (g1 & _ & ?). simplify_eq. intuition (congruence || discriminate).
Qed.

Lemma try_reveal_outcomes_witness :
  exists g', try_reveal (strip true) 0 1 = Ok (LosingMove, g').
Proof.
  destruct (try_reveal_outcomes (strip true) 0 1) as (move & g' & H & _ & _ & Hl & _);
    [split; [simpl; lia|by repeat constructor]|].
  exists g'. rewrite H. do 2 f_equal. apply Hl. by vm_compute.
Defined.

Lemma revealed_mark_mono grid i j x y :
  is_revealed (cell_at grid x y) = true ->
  is_revealed (cell_at (set_cell mark_revealed grid i j) x y) = true.
Proof. by destruct (cell_at_set_cell_cases mark_revealed grid i j x y) as [-> | ->]. Qed.

(** X2. Whatever [try_reveal] answers, it leaves the size of the grid,
    the three counters other than [count_revealed], [first_move] and
    [state] alone, changes no cell kind and no flag, and hides no cell
    that was revealed. *)
Theorem try_reveal_frame (g : Game) (i j : Z) :
  wf_grid (grid g) ->
  exists move g',
    try_reveal g i j = Ok (move, g')
    /\ rows (grid g') = rows (grid g) /\ cols (grid g') = cols (grid g)
    /\ count_bombs g' = count_bombs g /\ count_flagged g' = count_flagged g
    /\ first_move g' = first_move g /\ state g' = state g
    /\ (forall x y,
          type (cell_at (grid g') x y) = type (cell_at (grid g) x y)
          /\ is_flagged (cell_at (grid g') x y) = is_flagged (cell_at (grid g) x y)
          /\ (revealed g x y = true -> revealed g' x y = true)).
Proof.
  intros Hwf. destruct (try_reveal_total g i j Hwf) as (move & g' & H).
  exists move, g'. split; [done|].
  destruct (try_reveal_cases _ _ _ _ _ Hwf H) as [[_ G]|(_ & -> & _)].
  - destruct G. split_and!; try done. intros x y. split_and!; auto.
  - simpl. split_and!; try done.
    + apply rows_set_cell.
    + apply cols_set_cell.
    + intros x y. split_and!.
      * by apply (cell_at_set_cell_proj type).
      * by apply (cell_at_set_cell_proj is_flagged).
      * apply revealed_mark_mono.
Qed.

Lemma try_reveal_frame_witness :
  exists move g', try_reveal (strip true) 0 1 = Ok (move, g') /\ count_bombs g' = 1.
Proof.
  destruct (try_reveal_frame (strip true) 0 1)
    as (move & g' & H & _ & _ & Hb & _); [split; [simpl; lia|by repeat constructor]|].
  exists move, g'. split; [exact H|]. rewrite Hb. reflexivity.
Defined.

(** X3. Revealing a hidden, unflagged cell that is no mine is exactly the
    expansion from that cell: the write that follows the call of
    [expand] finds the cell revealed already. *)
Theorem try_reveal_hidden_is_expand (g : Game) (i j : Z) :
  wf_grid (grid g) -> passable g i j -> revealed g i j = false ->
  exists g', expand g i j = Ok g'
             /\ try_reveal g i j = Ok (Success, g')
             /\ revealed g' i j = true.
Proof.
  intros Hwf Hp Hr. destruct (expand_total g i j Hwf) as (g' & H & _).
  pose proof (expand_reveals_start _ _ _ _ Hwf H Hp) as Hr'.
  exists g'. split_and!; try done.
  destruct Hp as (Ho & Hb & Hf). unfold try_reveal, revealed in *.
  rewrite Ho, Hf, Hb, Hr, H. simpl.
  by rewrite set_cell_fixed, with_grid_same by by apply mark_revealed_fixed.
Qed.

Lemma try_reveal_hidden_is_expand_witness :
  exists g', expand (strip true) 0 0 = Ok g'
             /\ try_reveal (strip true) 0 0 = Ok (Success, g')
             /\ revealed g' 0 0 = true.
Proof.
  apply (try_reveal_hidden_is_expand (strip true) 0 0).
  - split; [simpl; lia|by repeat constructor].
  - by vm_compute.
  - reflexivity.
Defined.

Lemma expand_closed g x y g' :
  wf_grid (grid g) -> expand g x y = Ok g' ->
  flood g g' /\ (passable g x y -> revealed g' x y = true).
Proof. intros Hwf H. by apply expand_fuel_closed in H. Qed.

(** X4. Revealing a cell that is revealed already (a chord) always
    answers [Success]. When the number of flagged cells and the number
    of mines among the eight neighbours differ nothing changes; when
    they agree every one of the eight neighbours that is in the grid,
    unflagged and no mine is revealed afterwards. Either way the revealed
    bit of every mine stays as it was, so a chord next to a wrong flag
    does not lose. *)
Theorem chord_reveal (g : Game) (i j : Z) :
  wf_grid (grid g) -> passable g i j -> revealed g i j = true ->
  exists g',
    try_reveal g i j = Ok (Success, g')
    /\ (around is_flagged g i j <> around is_bomb g i j -> g' = g)
    /\ (around is_flagged g i j = around is_bomb g i j ->
        forall di dj, -1 <= di <= 1 -> -1 <= dj <= 1 -> ~ (di = 0 /\ dj = 0) ->
                      passable g (i + di) (j + dj) ->
                      revealed g' (i + di) (j + dj) = true)
    /\ (forall x y, inside (grid g) x y -> is_bomb (cell_at (grid g) x y) = true ->
                    revealed g' x y = revealed g x y).
Proof.
  intros Hwf (Ho & Hb & Hf) Hr. unfold try_reveal, revealed in *.
  rewrite Ho, Hf, Hb, Hr. simpl.
  unfold unsettled, count_flagged_neighbors, count_bomb_neighbors.
  rewrite (count_neighbors_around g i j is_flagged Ho),
    (count_neighbors_around g i j is_bomb Ho), of_nat_eqb.
  destruct (Nat.eqb_spec (around is_flagged g i j) (around is_bomb g i j)) as [Heq|Hne];
    simpl.
  2: { exists g. by split_and!. }
  destruct (for_dirs_expand_total dir8 g i j Hwf) as (g' & H & G).
  rewrite H. simpl. exists g'. split_and!; try done.
  - intros _ di dj Hdi Hdj Hne Hp.
    apply (proj2 (for_dirs_closed expand dir8 expand_closed g i j g' Hwf H) (di, dj));
      [by apply adjacent_dir8|done].
  - intros x y Hin Hbomb.
    destruct (is_revealed (cell_at (grid g) x y)) eqn:E; [by apply (grows_mono _ _ G)|].
    destruct (is_revealed (cell_at (grid g') x y)) eqn:E'; [|done].
    destruct (grows_safe _ _ G x y Hin E') as [?|(_ & ? & _)]; unfold revealed in *;
      congruence.
Qed.

Lemma chord_reveal_witness :
  exists g',
    try_reveal (after (corner_mine true) [CmdReveal [(0, 0)]; CmdFlag [(1, 1)]]) 0 0
    = Ok (Success, g')
    /\ revealed (after (corner_mine true) [CmdReveal [(0, 0)]; CmdFlag [(1, 1)]]) 0 1
       = false
    /\ revealed g' 0 1 = true
    /\ revealed g' 1 0 = true
    /\ revealed g' 1 1 = false.
Proof.
  destruct (chord_reveal
              (after (corner_mine true) [CmdReveal [(0, 0)]; CmdFlag [(1, 1)]]) 0 0)
    as (g' & H & _ & Hopen & Hmines).
  - split; [vm_compute; lia|vm_compute; by repeat constructor].
  - by vm_compute.
  - reflexivity.
  - exists g'. split_and!; [exact H|reflexivity|..].
    + apply (Hopen eq_refl 0 1); [lia|lia|lia|by vm_compute].
    + apply (Hopen eq_refl 1 0); [lia|lia|lia|by vm_compute].
    + rewrite Hmines; [reflexivity|by vm_compute|reflexivity].
Defined.

(** ** Flags *)

(** X5. [try_set_flag] answers [OutBounds] outside the grid and leaves
    the game as it was. Whatever it answers, it touches nothing but
    [count_flagged] and the flag of the cell it is given: the size of
    the grid, the other counters, [first_move], [state], all cell kinds,
    all revealed bits and every other cell stay. *)
Theorem try_set_flag_frame (g : Game) (i j : Z) (value : bool) :
  (outside (grid g) i j = true -> try_set_flag g i j value = (OutBounds, g))
  /\ rows (grid (try_set_flag g i j value).2) = rows (grid g)
  /\ cols (grid (try_set_flag g i j value).2) = cols (grid g)
  /\ count_bombs (try_set_flag g i j value).2 = count_bombs g
  /\ count_revealed (try_set_flag g i j value).2 = count_revealed g
  /\ first_move (try_set_flag g i j value).2 = first_move g
  /\ state (try_set_flag g i j value).2 = state g
  /\ (forall x y,
        type (cell_at (grid (try_set_flag g i j value).2) x y)
        = type (cell_at (grid g) x y)
        /\ is_revealed (cell_at (grid (try_set_flag g i j value).2) x y)
           = is_revealed (cell_at (grid g) x y))
  /\ (forall x y,
        inside (grid g) x y -> ~ (x = i /\ y = j) ->
        cell_at (grid (try_set_flag g i j value).2) x y = cell_at (grid g) x y).
Proof.
  unfold try_set_flag. destruct (outside (grid g) i j) eqn:Ho; [by split_and!|].
  destruct (is_revealed (cell_at (grid g) i j)); [by split_and!|]. simpl.
  apply outside_false in Ho. split_and!; try done.
  - apply rows_set_cell.
  - apply cols_set_cell.
  - intros x y. split.
    + by apply (cell_at_set_cell_proj type).
    + by apply (cell_at_set_cell_proj is_revealed).
  - intros x y Hin Hne. apply cell_at_set_cell_ne. intros E.
    destruct (same_cell_inside _ _ _ _ _ Ho Hin E). by apply Hne.
Qed.

Lemma set_cell_set_cell f h grid i j :
  set_cell f (set_cell h grid i j) i j = set_cell (f ∘ h) grid i j.
Proof.
  unfold set_cell. rewrite list_alter_alter_eq.
  apply list_alter_ext; [|done]. intros row _. simpl. apply list_alter_alter_eq.
Qed.

Lemma u32_up_down c : 0 <= c < 2 ^ 32 -> u32 (u32 (c + 1) + -1) = c.
Proof.
  intros Hc. unfold u32. rewrite Zplus_mod_idemp_l.
  replace (c + 1 + -1) with c by lia. by apply Z.mod_small.
Qed.

(** X6. Flagging a hidden, unflagged cell and unflagging it again gives
    back the very same game: both calls answer [Success] and
    [count_flagged], a [uint32_t] value, returns to where it was. *)
Theorem flag_unflag_round_trip (g : Game) (i j : Z) :
  inside (grid g) i j ->
  is_revealed (cell_at (grid g) i j) = false ->
  is_flagged (cell_at (grid g) i j) = false ->
  0 <= count_flagged g < 2 ^ 32 ->
  exists g1, try_set_flag g i j true = (Success, g1)
             /\ try_set_flag g1 i j false = (Success, g).
Proof.
  intros Hin%outside_false Hr Hf Hc. unfold try_set_flag at 1. rewrite Hin, Hr.
  eexists. split; [reflexivity|]. unfold try_set_flag. simpl.
  rewrite outside_set_cell, Hin.
  rewrite (cell_at_set_cell_proj is_revealed) by done. rewrite Hr.
  rewrite set_cell_set_cell, u32_up_down by done.
  rewrite (set_cell_fixed (set_flagged false ∘ set_flagged true)); [by destruct g|].
  simpl. destruct (cell_at (grid g) i j) as [t fl r]. simpl in *. by subst.
Qed.

Lemma flag_unflag_round_trip_witness :
  exists g1, try_set_flag (strip true) 0 1 true = (Success, g1)
             /\ try_set_flag g1 0 1 false = (Success, strip true).
Proof.
  apply (flag_unflag_round_trip (strip true) 0 1).
  - by vm_compute.
  - reflexivity.
  - reflexivity.
  - by vm_compute.
Defined.

(** ** Expansion, again *)

(** X7. Expanding a second time from the same cell changes nothing: the
    start is revealed, a mine, flagged or outside the grid by then. *)
Theorem expand_twice (g : Game) (i j : Z) :
  wf_grid (grid g) ->
  exists g', expand g i j = Ok g' /\ expand g' i j = Ok g'.
Proof.
  intros Hwf. destruct (expand_total g i j Hwf) as (g' & H & G & _).
  exists g'. split; [done|].
  assert (blocked g' i j = true) as Hb.
  { destruct (blocked g i j) eqn:Hb.
    - unfold expand in H. simpl in H. rewrite Hb in H. by simplify_eq.
    - apply blocked_false in Hb as [Hp _].
      pose proof (expand_reveals_start _ _ _ _ Hwf H Hp) as Hr.
      unfold blocked, revealed in *. rewrite Hr. by rewrite orb_true_r. }
  unfold expand. simpl. by rewrite Hb.
Qed.

Lemma expand_twice_witness :
  exists g', expand (square true) 0 0 = Ok g' /\ expand g' 0 0 = Ok g'.
Proof.
  apply (expand_twice (square true) 0 0).
  split; [simpl; lia|by repeat constructor].
Defined.

(** ** Counting neighbours *)

Lemma sum_list_with_is_0 {A} (f : A -> nat) l :
  sum_list_with f l = 0%nat <-> forall x, x ∈ l -> f x = 0%nat.
Proof.
  induction l as [|a l IH]; simpl.
  - split; [|done]. intros _ x Hx. by apply elem_of_nil in Hx.
  - rewrite Nat.eq_add_0, IH. split.
    + intros [Ha Hl] x [->|Hx]%elem_of_cons; auto.
    + intros H. split; [apply H; by left|]. intros x Hx. apply H. by right.
Qed.

(** X8. [count_neighbors] is the number of the eight neighbours that are
    cells of the grid and satisfy the predicate: between 0 and 8, never
    wrapped, 0 for a place outside the grid, and 0 inside the grid
    exactly when no neighbouring cell satisfies the predicate. *)
Theorem count_neighbors_counts (grid : Grid) (i j : Z) (p : Cell -> bool) :
  0 <= count_neighbors grid i j p <= 8
  /\ (outside grid i j = true -> count_neighbors grid i j p = 0)
  /\ (outside grid i j = false ->
      count_neighbors grid i j p
      = Z.of_nat (sum_list_with (fun d => Nat.b2n (neighbor_hit grid i j p d)) dir8)
      /\ (count_neighbors grid i j p = 0 <->
          forall d, d ∈ dir8 -> inside grid (i + d.1) (j + d.2) ->
                    p (cell_at grid (i + d.1) (j + d.2)) = false)).
Proof.
  unfold count_neighbors. destruct (outside grid i j); [by split_and!; try lia|].
  rewrite count_neighbors_fold by (simpl; lia). rewrite Z.add_0_l.
  assert (sum_list_with (fun d => Nat.b2n (neighbor_hit grid i j p d)) dir8 <= 8)%nat
    as Hle.
  { change 8%nat with (length dir8 * 1)%nat. apply sum_list_with_bound.
    apply Forall_forall. intros d _. destruct (neighbor_hit _ _ _ _ _); simpl; lia. }
  split_and!; [lia|lia|done|]. intros _. split; [done|].
  rewrite <- Nat2Z.inj_0, Nat2Z.inj_iff, sum_list_with_is_0. split.
  - intros H d Hd Hin%outside_false. specialize (H d Hd). unfold neighbor_hit in H.
    rewrite Hin in H. simpl in H. by destruct (p _).
  - intros H d Hd. unfold neighbor_hit.
    destruct (outside grid (i + d.1) (j + d.2)) eqn:Ho; [done|]. simpl.
    rewrite H; [done..|]. by apply outside_false.
Qed.

(** ** Construction and restart *)

Lemma cell_at_fill_grid m n hit (i j : nat) :
  (i < m)%nat -> (j < n)%nat ->
  cell_at (fill_grid m n hit) (Z.of_nat i) (Z.of_nat j)
  = new_cell (if hit i j then BOMB else EMPTY).
Proof.
  intros Hi Hj. unfold cell_at, fill_grid. rewrite !Nat2Z.id.
  rewrite (list_lookup_total_fmap
             (fun i => (fun j => new_cell (if hit i j then BOMB else EMPTY)) <$> seq 0 n)
             (seq 0 m) i) by (by rewrite length_seq).
  rewrite lookup_total_seq_lt by done. simpl.
  rewrite (list_lookup_total_fmap
             (fun j => new_cell (if hit i j then BOMB else EMPTY)) (seq 0 n) j)
    by (by rewrite length_seq).
  by rewrite lookup_total_seq_lt.
Qed.

Lemma dims_fill_grid m n hit :
  (0 < m)%nat -> rows (fill_grid m n hit) = m /\ cols (fill_grid m n hit) = n.
Proof.
  intros Hm. unfold rows, cols, fill_grid. rewrite length_fmap, length_seq.
  split; [done|]. destruct m as [|m]; [lia|]. simpl.
  by rewrite length_fmap, length_seq.
Qed.

Lemma count_cells_negb p grid :
  count_cells (fun _ => true) grid
  = (count_cells p grid + count_cells (fun c => negb (p c)) grid)%nat.
Proof.
  unfold count_cells. rewrite <- sum_list_with_add. apply sum_list_with_ext.
  intros row. unfold count_row. rewrite <- sum_list_with_add. apply sum_list_with_ext.
  intros c. by destruct (p c).
Qed.

(** X9. A constructed game has [m] rows of [n] cells, the cell at
    [(i, j)] is a mine exactly when its draw hit, every cell is hidden
    and unflagged, [count_flagged] and [count_revealed] are 0, the state
    is [ACTIVE], and, on a board of fewer than [2^32] cells,
    [count_bombs] is the number of mines. *)
Theorem new_game_layout (m n : nat) (hit : nat -> nat -> bool) (first_move0 : bool) :
  (0 < m)%nat ->
  wf_grid (grid (new_game m n hit first_move0))
  /\ rows (grid (new_game m n hit first_move0)) = m
  /\ cols (grid (new_game m n hit first_move0)) = n
  /\ (forall i j : nat,
        (i < m)%nat -> (j < n)%nat ->
        cell_at (grid (new_game m n hit first_move0)) (Z.of_nat i) (Z.of_nat j)
        = new_cell (if hit i j then BOMB else EMPTY))
  /\ hidden (new_game m n hit first_move0) = (m * n)%nat
  /\ count_flagged (new_game m n hit first_move0) = 0
  /\ count_revealed (new_game m n hit first_move0) = 0
  /\ state (new_game m n hit first_move0) = ACTIVE
  /\ (Z.of_nat (m * n) < 2 ^ 32 ->
      count_bombs (new_game m n hit first_move0)
      = Z.of_nat (count_cells is_bomb (grid (new_game m n hit first_move0)))).
Proof.
  intros Hm. pose proof (wf_fill_grid m n hit Hm) as Hwf.
  destruct (dims_fill_grid m n hit Hm) as [Hr Hc]. simpl.
  split_and!; try done.
  - intros i j. apply cell_at_fill_grid.
  - unfold hidden; simpl.
    pose proof (count_cells_negb is_revealed (fill_grid m n hit)) as H.
    rewrite count_cells_all, Hr, Hc, (count_cells_fill_grid is_revealed) in H by done.
    lia.
  - intros Hsmall. unfold u32. apply Z.mod_small.
    pose proof (count_cells_bound is_bomb _ Hwf) as H. rewrite Hr, Hc in H. lia.
Qed.

Lemma new_game_layout_witness :
  hidden (strip true) = 3%nat /\ count_bombs (strip true) = 1.
Proof.
  destruct (new_game_layout 1 3 (fun _ j => Nat.eqb j 1) true)
    as (_ & _ & _ & _ & Hh & _ & _ & _ & Hb); [lia|].
  split; [exact Hh|]. unfold strip. rewrite Hb; [reflexivity|by vm_compute].
Defined.

Lemma cell_at_restart g x y :
  wf_grid (grid g) -> inside (grid g) x y ->
  cell_at (grid (restart g)) x y = reset (cell_at (grid g) x y).
Proof.
  intros Hwf [Hx Hy]. unfold restart, cell_at; simpl.
  assert (Z.to_nat x < rows (grid g))%nat as Hx' by lia.
  rewrite (list_lookup_total_fmap (fmap (M:=list) reset) (grid g) (Z.to_nat x)) by done.
  rewrite (list_lookup_total_fmap reset) by (rewrite wf_row_length by done; lia).
  done.
Qed.

(** X10. [restart] keeps the size of the grid, the kind of every cell
    (also of a cell the first-move rule has turned into [EMPTY]) and
    [count_bombs]; it hides and unflags every cell, zeroes the other two
    counters, sets [first_move] and makes the state [ACTIVE]. Restarting
    twice is restarting once. *)
Theorem restart_resets (g : Game) :
  wf_grid (grid g) ->
  wf_grid (grid (restart g))
  /\ rows (grid (restart g)) = rows (grid g)
  /\ cols (grid (restart g)) = cols (grid g)
  /\ (forall x y, inside (grid g) x y ->
                  cell_at (grid (restart g)) x y
                  = mkCell (type (cell_at (grid g) x y)) false false)
  /\ hidden (restart g) = (rows (grid g) * cols (grid g))%nat
  /\ count_bombs (restart g) = count_bombs g
  /\ count_flagged (restart g) = 0
  /\ count_revealed (restart g) = 0
  /\ first_move (restart g) = true
  /\ state (restart g) = ACTIVE
  /\ restart (restart g) = restart g.
Proof.
  intros Hwf. pose proof (inv_wf _ (restart_inv g Hwf)) as Hwf'.
  assert (rows (grid (restart g)) = rows (grid g)) as Hr
    by (unfold restart, rows; simpl; by rewrite length_fmap).
  assert (cols (grid (restart g)) = cols (grid g)) as Hc.
  { unfold restart, cols; simpl. destruct Hwf as [H0 _].
    rewrite (list_lookup_total_fmap (fmap (M:=list) reset) (grid g) 0%nat) by done.
    by rewrite length_fmap. }
  split_and!; try done.
  - intros x y Hin. by rewrite cell_at_restart.
  - unfold hidden.
    pose proof (count_cells_negb is_revealed (grid (restart g))) as H.
    rewrite count_cells_all, Hr, Hc in H by done.
    assert (count_cells is_revealed (grid (restart g)) = 0%nat) as H0
      by (unfold restart; simpl; by rewrite count_cells_fmap, count_cells_never).
    lia.
  - unfold restart. simpl. f_equal.
    rewrite <- list_fmap_compose. apply list_fmap_ext. intros _ row _. simpl.
    rewrite <- list_fmap_compose. by apply list_fmap_ext.
Qed.

Lemma restart_resets_witness :
  restart (restart (strip true)) = restart (strip true).
Proof.
  apply (restart_resets (strip true)).
  split; [simpl; lia|by repeat constructor].
Defined.

(** ** What holds along a run *)

Lemma dims_restart g :
  wf_grid (grid g) ->
  rows (grid (restart g)) = rows (grid g) /\ cols (grid (restart g)) = cols (grid g).
Proof.
  intros [H0 _]. unfold restart, rows, cols; simpl. rewrite length_fmap. split; [done|].
  rewrite (list_lookup_total_fmap (fmap (M:=list) reset) (grid g) 0%nat) by done.
  by rewrite length_fmap.
Qed.

Lemma run_inv_new_game m n hit first_move0 :
  (0 < m)%nat -> run_inv (new_game m n hit first_move0).
Proof.
  intros Hm. destruct (dims_fill_grid m n hit Hm) as [Hr Hc].
  assert (forall x y, inside (fill_grid m n hit) x y ->
            exists t, cell_at (fill_grid m n hit) x y = new_cell t) as Hcell.
  { intros x y [Hx Hy]. rewrite Hr in Hx. rewrite Hc in Hy.
    rewrite <- (Z2Nat.id x), <- (Z2Nat.id y) by lia.
    rewrite cell_at_fill_grid by lia. eauto. }
  split; simpl.
  - intros x y Hin. destruct (Hcell x y Hin) as [t ->]. done.
  - intros _ x y Hin. unfold revealed; simpl. destruct (Hcell x y Hin) as [t ->]. done.
  - unfold u32. pose proof (Z.mod_pos_bound (Z.of_nat (count_cells is_bomb
                                (fill_grid m n hit))) (2 ^ 32)). lia.
Qed.

Lemma run_inv_restart g : wf_grid (grid g) -> run_inv g -> run_inv (restart g).
Proof.
  intros Hwf [_ _ [Hb _]]. destruct (dims_restart g Hwf) as [Hr Hc].
  assert (forall x y, inside (grid (restart g)) x y ->
            cell_at (grid (restart g)) x y = reset (cell_at (grid g) x y)) as Hcell.
  { intros x y Hin. apply cell_at_restart; [done|].
    unfold inside in *. by rewrite <- Hr, <- Hc. }
  split.
  - intros x y Hin. by rewrite Hcell.
  - intros _ x y Hin. unfold revealed. by rewrite Hcell.
  - simpl. lia.
Qed.

Lemma run_inv_grows g g' : grows g g' -> run_inv g -> run_inv g'.
Proof.
  intros G [Hfh Hnb Hc]. split.
  - intros x y Hin%(grows_inside _ _ _ _ G) Hf. rewrite (grows_flag _ _ G) in Hf.
    destruct (revealed g' x y) eqn:E; [|done].
    destruct (grows_safe _ _ G x y Hin E) as [Hr|(_ & _ & Hp)]; [|congruence].
    by rewrite (Hfh x y Hin Hf) in Hr.
  - rewrite (grows_state _ _ G). intros Hs x y Hin%(grows_inside _ _ _ _ G) Hr.
    rewrite (grows_is_bomb _ _ _ _ G).
    destruct (grows_safe _ _ G x y Hin Hr) as [Hr0|(_ & Hp & _)]; [|done].
    by apply Hnb.
  - by rewrite (grows_bombs _ _ G), (grows_flagged _ _ G).
Qed.

Lemma run_inv_flag_step value g place : run_inv g -> run_inv (flag_step value g place).
Proof.
  intros [Hfh Hnb Hc]. unfold flag_step, try_set_flag.
  destruct (outside (grid g) place.1 place.2) eqn:Ho; [done|].
  destruct (is_revealed (cell_at (grid g) place.1 place.2)) eqn:Hr; [done|].
  apply outside_false in Ho. simpl. split; simpl.
  - intros x y Hin. rewrite <- outside_false, outside_set_cell, outside_false in Hin.
    unfold revealed; simpl. rewrite (cell_at_set_cell_proj is_revealed) by done.
    destruct (decide (x = place.1 /\ y = place.2)) as [[-> ->]|Hne]; [done|].
    rewrite cell_at_set_cell_ne; [by apply Hfh|].
    intros E. destruct (same_cell_inside _ _ _ _ _ Ho Hin E). by apply Hne.
  - intros Hs x y Hin. rewrite <- outside_false, outside_set_cell, outside_false in Hin.
    unfold revealed; simpl. rewrite (cell_at_set_cell_proj is_revealed) by done.
    rewrite (cell_at_set_cell_proj is_bomb) by done. by apply Hnb.
  - split; [apply Hc|]. unfold u32.
    pose proof (Z.mod_pos_bound (count_flagged g + (if value then 1 else -1)) (2 ^ 32)).
    lia.
Qed.

Lemma try_set_flag_grid_state g i j value : state (try_set_flag g i j value).2 = state g.
Proof.
  unfold try_set_flag. destruct (outside (grid g) i j); [done|].
  by destruct (is_revealed (cell_at (grid g) i j)).
Qed.

Lemma run_inv_flag value places : forall g, run_inv g -> run_inv (flag g places value).
Proof.
  unfold flag. induction places as [|place places IH]; intros g Hg; [done|].
  simpl. by apply IH, run_inv_flag_step.
Qed.

Lemma flag_state value places : forall g, state (flag g places value) = state g.
Proof.
  unfold flag. induction places as [|place places IH]; intros g; [done|].
  simpl. rewrite IH. unfold flag_step. apply try_set_flag_grid_state.
Qed.

Lemma run_inv_first_move g b : run_inv g -> run_inv (with_first_move g b).
Proof. intros [H1 H2 H3]. by split. Qed.

Lemma run_inv_convert g i j :
  run_inv g -> run_inv (with_grid g (set_cell (set_type EMPTY) (grid g) i j)).
Proof.
  intros [Hfh Hnb Hc]. split; simpl; [| |done].
  - intros x y Hin. rewrite <- outside_false, outside_set_cell, outside_false in Hin.
    unfold revealed; simpl.
    rewrite (cell_at_set_cell_proj is_revealed), (cell_at_set_cell_proj is_flagged) by done.
    by apply Hfh.
  - intros Hs x y Hin. rewrite <- outside_false, outside_set_cell, outside_false in Hin.
    unfold revealed; simpl. rewrite (cell_at_set_cell_proj is_revealed) by done.
    intros Hr. destruct (cell_at_set_cell_cases (set_type EMPTY) (grid g) i j x y)
      as [-> | ->]; [by apply Hnb|done].
Qed.

Lemma run_inv_lost g i j :
  wf_grid (grid g) -> run_inv g -> inside (grid g) i j ->
  is_flagged (cell_at (grid g) i j) = false ->
  is_bomb (cell_at (grid g) i j) = true ->
  run_inv (with_state (with_grid g (set_cell mark_revealed (grid g) i j)) OVER)
  /\ revealed_bomb (cell_at (set_cell mark_revealed (grid g) i j) i j) = true.
Proof.
  intros Hwf [Hfh Hnb Hc] Hij Hf Hb. split; [split; simpl; [|done|done]|].
  - intros x y Hin. rewrite <- outside_false, outside_set_cell, outside_false in Hin.
    unfold revealed; simpl. rewrite (cell_at_set_cell_proj is_flagged) by done.
    destruct (decide (x = i /\ y = j)) as [[-> ->]|Hne]; [congruence|].
    rewrite cell_at_set_cell_ne; [by apply Hfh|].
    intros E. destruct (same_cell_inside _ _ _ _ _ Hij Hin E). by apply Hne.
  - rewrite cell_at_set_cell_eq by done. unfold revealed_bomb, is_bomb in *. simpl.
    done.
Qed.

(** One pair of a [reveal] command: the invariants stay, and the state
    changes only by a losing move, which shows its mine. *)
Lemma run_inv_reveal_step g i j move g' :
  wf_grid (grid g) -> run_inv g -> reveal_step g i j = Ok (move, g') ->
  wf_grid (grid g') /\ run_inv g'
  /\ ((move <> LosingMove /\ state g' = state g)
      \/ (move = LosingMove /\ state g' = OVER /\ inside (grid g') i j
          /\ revealed_bomb (cell_at (grid g') i j) = true)).
Proof.
  intros Hwf Hrun H. unfold reveal_step in H.
  apply bind_Ok in H as (g1 & H1 & H).
  apply bind_Ok in H as ([m g3] & H2 & H). simpl in H.
  assert (wf_grid (grid g1) /\ run_inv g1 /\ state g1 = state g) as (Hwf1 & Hrun1 & Hs1).
  { destruct (first_move g); [|by simplify_eq].
    destruct (outside (grid g) i j); [done|]. simplify_eq. simpl.
    split_and!; [by apply wf_set_cell|by apply run_inv_convert|done]. }
  apply (run_inv_first_move _ false) in Hrun1.
  set (g2 := with_first_move g1 false) in *.
  assert (wf_grid (grid g2)) as Hwf2 by done.
  assert (state g2 = state g) as Hs2 by done.
  clearbody g2.
  destruct (try_reveal_cases _ _ _ _ _ Hwf2 H2) as [[Hm G]|(-> & -> & Hin & Hf & Hb)].
  - assert (g' = g3 /\ move = m) as [-> ->] by (destruct m; by simplify_eq).
    split_and!.
    + by apply (grows_wf _ _ G).
    + by apply (run_inv_grows _ _ G).
    + left. split; [done|]. by rewrite (grows_state _ _ G).
  - simplify_eq. simpl in *.
    destruct (run_inv_lost _ i j Hwf2 Hrun1 Hin Hf Hb) as [Hrun' Hshown].
    split_and!; [by apply wf_set_cell|done|]. right. split_and!; try done.
    by rewrite <- outside_false, outside_set_cell, outside_false.
Qed.

Lemma run_inv_reveal places :
  forall g g',
    wf_grid (grid g) -> run_inv g -> reveal g places = Ok g' ->
    wf_grid (grid g') /\ run_inv g'
    /\ (state g' = state g
        \/ (state g' = OVER
            /\ exists x y, inside (grid g') x y
                           /\ revealed_bomb (cell_at (grid g') x y) = true)).
Proof.
  induction places as [|place places IH]; intros g g' Hwf Hrun H; simpl in H.
  { simplify_eq. auto. }
  apply bind_Ok in H as ([m g1] & H1 & H). simpl in H.
  destruct (run_inv_reveal_step _ _ _ _ _ Hwf Hrun H1)
    as (Hwf1 & Hrun1 & [[Hm Hs]|(-> & Hs & Hin & Hshown)]).
  - assert (reveal g1 places = Ok g') as H' by (destruct m; done).
    destruct (IH _ _ Hwf1 Hrun1 H') as (? & ? & Hs').
    split_and!; [done..|]. rewrite Hs in Hs'. exact Hs'.
  - simplify_eq. split_and!; [done..|]. right. eauto.
Qed.

Lemma is_won_with_state g s : is_won (with_state g s) = is_won g.
Proof. done. Qed.

Lemma turn_run_inv g cmd g' :
  state g = ACTIVE -> wf_grid (grid g) -> run_inv g -> turn g cmd = Ok g' ->
  run_inv g' /\ over_ok g'.
Proof.
  intros Hs Hwf Hrun H. unfold turn in H. apply bind_Ok in H as (g1 & H1 & [= <-]).
  assert (run_inv g1 /\ over_ok g1) as [[Hfh Hnb Hc] Hover].
  { destruct cmd; simpl in H1; simplify_eq.
    - split; [by apply run_inv_flag|]. intros Ho. rewrite flag_state in Ho. congruence.
    - split; [by apply run_inv_flag|]. intros Ho. rewrite flag_state in Ho. congruence.
    - destruct (run_inv_reveal _ _ _ Hwf Hrun H1) as (_ & ? & [Hs1|[_ Hshown]]).
      + split; [done|]. intros Ho. congruence.
      + split; [done|]. intros _. by right.
    - split; [by apply run_inv_restart|]. intros Ho. done.
    - split; [done|]. intros Ho. congruence.
    - split; [done|]. intros Ho. congruence. }
  destruct (is_won g1) eqn:Hw; [|by split].
  split; [by split|]. intros _. left. by rewrite is_won_with_state.
Qed.

Lemma reachable_run_inv g : reachable g -> run_inv g /\ over_ok g.
Proof.
  induction 1 as [m n hit fm Hm Hn|g cmd g' Hreach [IH _] Hs Hturn].
  - split; [by apply run_inv_new_game|]. intros Ho. done.
  - apply (turn_run_inv g cmd); try done. by apply reachable_inv.
Qed.

(** X11. In every state of a run no cell is both flagged and revealed. *)
Theorem flagged_cells_are_hidden (g : Game) (x y : Z) :
  reachable g -> inside (grid g) x y ->
  is_flagged (cell_at (grid g) x y) && is_revealed (cell_at (grid g) x y) = false.
Proof.
  intros [[Hfh _ _] _]%reachable_run_inv Hin.
  destruct (is_flagged (cell_at (grid g) x y)) eqn:Hf; [|done].
  by apply Hfh.
Qed.

Lemma flagged_cells_are_hidden_witness :
  is_flagged
    (cell_at (grid (after (strip true) [CmdFlag [(0, 1)]; CmdReveal [(0, 0)]])) 0 1)
  = true
  /\ is_revealed
       (cell_at (grid (after (strip true) [CmdFlag [(0, 1)]; CmdReveal [(0, 0)]])) 0 0)
     = true
  /\ is_flagged
       (cell_at (grid (after (strip true) [CmdFlag [(0, 1)]; CmdReveal [(0, 0)]])) 0 1)
     && is_revealed
          (cell_at (grid (after (strip true) [CmdFlag [(0, 1)]; CmdReveal [(0, 0)]])) 0 1)
     = false.
Proof.
  split_and!; [reflexivity|reflexivity|].
  apply (flagged_cells_are_hidden
           (after (strip true) [CmdFlag [(0, 1)]; CmdReveal [(0, 0)]]) 0 1).
  - apply after_reachable, reach_new; lia.
  - by vm_compute.
Defined.

(** X12. While the state is [ACTIVE] no mine is revealed: a reveal that
    marks a mine ends the game in the same command. *)
Theorem no_mine_revealed_while_active (g : Game) (x y : Z) :
  reachable g -> state g = ACTIVE -> inside (grid g) x y ->
  is_revealed (cell_at (grid g) x y) = true ->
  type (cell_at (grid g) x y) = EMPTY.
Proof.
  intros [[_ Hnb _] _]%reachable_run_inv Hs Hin Hr.
  specialize (Hnb Hs x y Hin Hr). unfold is_bomb in Hnb.
  by destruct (type (cell_at (grid g) x y)).
Qed.

(** X13. A game whose state is [OVER] passes the win test or shows a
    revealed mine: the loop of [main] ends for no other reason. *)
Theorem over_means_won_or_lost (g : Game) :
  reachable g -> state g = OVER ->
  is_won g = true
  \/ exists x y, inside (grid g) x y
                 /\ type (cell_at (grid g) x y) = BOMB
                 /\ is_revealed (cell_at (grid g) x y) = true.
Proof.
  intros [_ Hover]%reachable_run_inv Hs.
  destruct (Hover Hs) as [?|(x & y & Hin & Hshown)]; [by left|right].
  exists x, y. unfold revealed_bomb, is_bomb in Hshown.
  destruct (type (cell_at (grid g) x y)), (is_revealed (cell_at (grid g) x y)); done.
Qed.

(** X14. In every state of a run the three counters hold [uint32_t]
    values, and [count_revealed] does not exceed the number of cells on a
    board of fewer than [2^32] cells. *)
Theorem counters_in_range (g : Game) :
  reachable g ->
  0 <= count_bombs g < 2 ^ 32
  /\ 0 <= count_flagged g < 2 ^ 32
  /\ 0 <= count_revealed g < 2 ^ 32
  /\ (Z.of_nat (rows (grid g) * cols (grid g)) < 2 ^ 32 ->
      count_revealed g <= Z.of_nat (rows (grid g) * cols (grid g))).
Proof.
  intros Hreach. destruct (reachable_run_inv g Hreach) as [[_ _ [Hb Hf]] _].
  destruct (reachable_inv g Hreach) as [Hwf Hinv _]. unfold revealed_inv in Hinv.
  pose proof (count_cells_bound safe_revealed _ Hwf) as Hle.
  pose proof (Z.mod_pos_bound (Z.of_nat (count_cells safe_revealed (grid g))) (2 ^ 32)).
  unfold u32 in Hinv. split_and!; try lia.
  intros Hsmall. rewrite Hinv, Z.mod_small; lia.
Qed.

Lemma no_mine_revealed_while_active_witness :
  type (cell_at (grid (after (strip true) [CmdReveal [(0, 0)]])) 0 0) = EMPTY.
Proof.
  apply (no_mine_revealed_while_active (after (strip true) [CmdReveal [(0, 0)]]) 0 0).
  - apply after_reachable, reach_new; lia.
  - reflexivity.
  - by vm_compute.
  - reflexivity.
Defined.

Lemma over_means_won_or_lost_witness :
  is_won (after (strip true) [CmdReveal [(0, 0)]; CmdReveal [(0, 1)]]) = true
  \/ exists x y,
      inside (grid (after (strip true) [CmdReveal [(0, 0)]; CmdReveal [(0, 1)]])) x y
      /\ type (cell_at (grid (after (strip true)
                                [CmdReveal [(0, 0)]; CmdReveal [(0, 1)]])) x y) = BOMB
      /\ is_revealed (cell_at (grid (after (strip true)
                                       [CmdReveal [(0, 0)]; CmdReveal [(0, 1)]])) x y)
         = true.
Proof.
  apply (over_means_won_or_lost
           (after (strip true) [CmdReveal [(0, 0)]; CmdReveal [(0, 1)]])).
  - apply after_reachable, reach_new; lia.
  - reflexivity.
Defined.

Lemma counters_in_range_witness :
  count_flagged (after (strip true) [CmdUnflag [(0, 1)]; CmdReveal [(0, 0)]])
  = 4294967295
  /\ count_revealed (after (strip true) [CmdUnflag [(0, 1)]; CmdReveal [(0, 0)]]) = 1
  /\ 0 <= count_flagged (after (strip true) [CmdUnflag [(0, 1)]; CmdReveal [(0, 0)]])
       < 2 ^ 32
  /\ count_revealed (after (strip true) [CmdUnflag [(0, 1)]; CmdReveal [(0, 0)]])
     <= Z.of_nat (rows (grid (after (strip true)
                               [CmdUnflag [(0, 1)]; CmdReveal [(0, 0)]]))
                  * cols (grid (after (strip true)
                                  [CmdUnflag [(0, 1)]; CmdReveal [(0, 0)]]))).
Proof.
  destruct (counters_in_range
              (after (strip true) [CmdUnflag [(0, 1)]; CmdReveal [(0, 0)]]))
    as (_ & Hf & _ & Hr); [apply after_reachable, reach_new; lia|].
  split; [reflexivity|]. split; [reflexivity|]. split; [exact Hf|].
  apply Hr. by vm_compute.
Defined.

Lemma is_won_iff_no_safe_hidden_witness :
  is_won (after (square true) [CmdReveal [(0, 0)]]) = true
  /\ count_cells safe_hidden (grid (after (square true) [CmdReveal [(0, 0)]])) = 0%nat
  /\ (is_won (after (strip true) [CmdReveal [(0, 0)]]) = true
      <-> count_cells safe_hidden (grid (after (strip true) [CmdReveal [(0, 0)]]))
          = 0%nat)
  /\ (is_won (after (square true) [CmdReveal [(0, 0)]]) = true
      <-> count_cells safe_hidden (grid (after (square true) [CmdReveal [(0, 0)]]))
          = 0%nat).
Proof.
  split_and!; [reflexivity|reflexivity|..].
  - apply (is_won_iff_no_safe_hidden (after (strip true) [CmdReveal [(0, 0)]])).
    + split; [vm_compute; lia|vm_compute; by repeat constructor].
    + reflexivity.
    + reflexivity.
    + by vm_compute.
  - apply (is_won_iff_no_safe_hidden (after (square true) [CmdReveal [(0, 0)]])).
    + split; [vm_compute; lia|vm_compute; by repeat constructor].
    + reflexivity.
    + reflexivity.
    + by vm_compute.
Defined.

Lemma first_reveal_safe_witness :
  exists move g',
    reveal_step (restart (strip true)) 0 1 = Ok (move, g')
    /\ move <> LosingMove
    /\ first_move g' = false
    /\ is_bomb (cell_at (grid g') 0 1) = false.
Proof.
  apply (first_reveal_safe (restart (strip true)) 0 1).
  - split; [vm_compute; lia|vm_compute; by repeat constructor].
  - reflexivity.
  - by vm_compute.
Defined.

(** * The text side *)

(** ** Splitting a line into words *)

Lemma skip_ws_length s : (String.length (Cli.skip_ws s) <= String.length s)%nat.
Proof.
  induction s as [|c s IH]; simpl; [done|].
  destruct (Cli.isspace c); simpl; lia.
Qed.

Lemma read_word_length s :
  (String.length (Cli.read_word s).1 + String.length (Cli.read_word s).2
   = String.length s)%nat.
Proof.
  induction s as [|c s IH]; simpl; [done|].
  destruct (Cli.isspace c); simpl; lia.
Qed.

Lemma read_word_no_space s : Cli.no_space (Cli.read_word s).1 = true.
Proof.
  induction s as [|c s IH]; simpl; [done|].
  destruct (Cli.isspace c) eqn:E; simpl; [done|]. by rewrite E, IH.
Qed.

Lemma skip_ws_head s :
  Cli.skip_ws s = EmptyString
  \/ exists c s', Cli.skip_ws s = String c s' /\ Cli.isspace c = false.
Proof.
  induction s as [|c s IH]; simpl; [by left|].
  destruct (Cli.isspace c) eqn:E; [done|]. right. eauto.
Qed.

Lemma extract_Some s w rest :
  Cli.extract s = Some (w, rest) ->
  Cli.is_word w = true /\ (String.length rest < String.length s)%nat.
Proof.
  unfold Cli.extract. pose proof (skip_ws_length s) as Hlen.
  destruct (skip_ws_head s) as [->|(c & s' & Hs & Hc)]; [done|].
  rewrite Hs in *. simpl. rewrite Hc. intros [= <- <-].
  pose proof (read_word_length s') as Hl.
  simpl in *. rewrite Hc, read_word_no_space. split; [done|lia].
Qed.

Lemma to_command_fuel_any n :
  forall m s, (String.length s < n)%nat -> (String.length s < m)%nat ->
              Cli.to_command_fuel n s = Cli.to_command_fuel m s.
Proof.
  induction n as [|n IH]; intros m s Hn Hm; [lia|].
  destruct m as [|m]; [lia|]. simpl.
  destruct (Cli.extract s) as [[w rest]|] eqn:E; [|done].
  apply extract_Some in E as [_ Hlen]. f_equal. apply IH; lia.
Qed.

Lemma to_command_fuel_enough n s :
  (String.length s < n)%nat -> Cli.to_command_fuel n s = Cli.to_command s.
Proof. intros Hn. apply to_command_fuel_any; [done|lia]. Qed.

Lemma to_command_unfold s :
  Cli.to_command s
  = match Cli.extract s with
    | None => []
    | Some (w, rest) => w :: Cli.to_command rest
    end.
Proof.
  unfold Cli.to_command at 1. simpl.
  destruct (Cli.extract s) as [[w rest]|] eqn:E; [|done].
  apply extract_Some in E as [_ Hlen]. f_equal. apply to_command_fuel_enough. lia.
Qed.

Lemma to_command_space c s :
  Cli.isspace c = true -> Cli.to_command (String c s) = Cli.to_command s.
Proof.
  intros Hc. rewrite (to_command_unfold (String c s)), (to_command_unfold s).
  unfold Cli.extract. simpl. by rewrite Hc.
Qed.

Lemma append_cons c s t : String c s +:+ t = String c (s +:+ t).
Proof. done. Qed.

Lemma append_empty_l t : EmptyString +:+ t = t.
Proof. done. Qed.

Lemma read_word_append w rest :
  Cli.no_space w = true ->
  (rest = EmptyString \/ exists c r, rest = String c r /\ Cli.isspace c = true) ->
  Cli.read_word (w +:+ rest) = (w, rest).
Proof.
  intros Hw Hrest. induction w as [|c w IH].
  - rewrite append_empty_l.
    destruct Hrest as [->|(c & r & -> & Hc)]; simpl; [done|]. by rewrite Hc.
  - simpl in Hw. apply andb_true_iff in Hw as [Hc Hw]. apply negb_true_iff in Hc.
    rewrite append_cons. simpl. rewrite Hc, IH by done. done.
Qed.

Lemma to_command_word w rest :
  Cli.is_word w = true ->
  (rest = EmptyString \/ exists c r, rest = String c r /\ Cli.isspace c = true) ->
  Cli.to_command (w +:+ rest) = w :: Cli.to_command rest.
Proof.
  intros Hw Hrest. rewrite to_command_unfold. unfold Cli.extract.
  destruct w as [|c w]; [done|]. simpl in Hw.
  pose proof Hw as Hw'. apply andb_true_iff in Hw' as [Hc _]. apply negb_true_iff in Hc.
  change (String c w +:+ rest) with (String c (w +:+ rest)).
  simpl Cli.skip_ws. rewrite Hc.
  change (String c (w +:+ rest)) with (String c w +:+ rest).
  by rewrite read_word_append.
Qed.

Lemma to_command_nil_iff s : Cli.to_command s = [] <-> Cli.all_space s = true.
Proof.
  rewrite to_command_unfold. unfold Cli.extract.
  induction s as [|c s IH]; simpl; [done|].
  destruct (Cli.isspace c) eqn:Hc; simpl; [exact IH|].
  rewrite Hc. by split.
Qed.

(** X15. The words [to_command] returns are never empty and hold no
    whitespace; a line has no word exactly when it is made of
    whitespace only, the empty line included. *)
Theorem to_command_words (s : string) :
  Forall (fun w => Cli.is_word w = true) (Cli.to_command s)
  /\ (Cli.to_command s = [] <-> Cli.all_space s = true).
Proof.
  split; [|apply to_command_nil_iff].
  unfold Cli.to_command. generalize (S (String.length s)). intros n. revert s.
  induction n as [|n IH]; intros s; simpl; [done|].
  destruct (Cli.extract s) as [[w rest]|] eqn:E; [|done].
  apply extract_Some in E as [Hw _]. by constructor.
Qed.

Lemma append_empty_r s : s +:+ EmptyString = s.
Proof. induction s as [|c s IH]; [done|]. by rewrite append_cons, IH. Qed.

Lemma append_assoc s1 s2 s3 : (s1 +:+ s2) +:+ s3 = s1 +:+ (s2 +:+ s3).
Proof. induction s1 as [|c s1 IH]; [done|]. by rewrite !append_cons, IH. Qed.

(** X16. Splitting is the inverse of joining: words joined by single
    spaces come back as they were. *)
Theorem to_command_unwords (ws : list string) :
  Forall (fun w => Cli.is_word w = true) ws ->
  Cli.to_command (Cli.unwords ws) = ws.
Proof.
  induction 1 as [|w ws Hw Hws IH]; [done|].
  destruct ws as [|w' ws].
  - simpl. rewrite <- (append_empty_r w) at 1.
    rewrite to_command_word by auto. done.
  - change (Cli.unwords (w :: w' :: ws)) with (w +:+ " " +:+ Cli.unwords (w' :: ws)).
    rewrite to_command_word; [|done|right; eauto].
    change (" " +:+ Cli.unwords (w' :: ws)) with (String " " (Cli.unwords (w' :: ws))).
    rewrite to_command_space by done. by rewrite IH.
Qed.

Lemma to_command_unwords_witness :
  Cli.to_command (Cli.unwords ["reveal"; "0"; "1"]) = ["reveal"; "0"; "1"].
Proof.
  apply (to_command_unwords ["reveal"; "0"; "1"]).
  by repeat constructor.
Defined.

(** ** Reading and writing numbers *)

Lemma digit_char_ok d :
  0 <= d <= 9 ->
  Cli.is_digit (Cli.digit_char d) = true /\ Cli.digit_value (Cli.digit_char d) = d.
Proof.
  intros Hd.
  assert (d = 0 \/ d = 1 \/ d = 2 \/ d = 3 \/ d = 4 \/ d = 5 \/ d = 6 \/ d = 7
          \/ d = 8 \/ d = 9) as H by lia.
  repeat (destruct H as [->|H]; [by vm_compute|]). subst. by vm_compute.
Qed.

Lemma is_digit_no_space c : Cli.is_digit c = true -> Cli.isspace c = false.
Proof.
  unfold Cli.is_digit, Cli.isspace. intros [H1 H2]%andb_true_iff.
  apply N.leb_le in H1. apply orb_false_iff. split.
  - apply N.eqb_neq. lia.
  - apply andb_false_iff. right. apply N.leb_gt. lia.
Qed.

(** [stoi] on a string that starts with a digit. *)
Lemma stoi_digit_head c s :
  Cli.is_digit c = true ->
  Cli.stoi (String c s)
  = if (Cli.read_digits (String c s) 0 <? - 2 ^ 31)
       || (2 ^ 31 - 1 <? Cli.read_digits (String c s) 0)
    then inl Cli.out_of_range
    else inr (Cli.read_digits (String c s) 0).
Proof.
  intros Hc.
  destruct c as [[] [] [] [] [] [] [] []]; vm_compute in Hc; try discriminate Hc;
    reflexivity.
Qed.

Lemma stoi_minus_digit_head c s :
  Cli.is_digit c = true ->
  Cli.stoi (String "-" (String c s))
  = if (- Cli.read_digits (String c s) 0 <? - 2 ^ 31)
       || (2 ^ 31 - 1 <? - Cli.read_digits (String c s) 0)
    then inl Cli.out_of_range
    else inr (- Cli.read_digits (String c s) 0).
Proof.
  intros Hc. unfold Cli.stoi.
  change (Cli.skip_ws (String "-" (String c s))) with (String "-" (String c s)).
  cbn match beta zeta iota delta [fst snd]. by rewrite Hc.
Qed.

Lemma to_string_digits_append f :
  forall n tail rest,
    Cli.to_string_digits f n tail +:+ rest = Cli.to_string_digits f n (tail +:+ rest).
Proof.
  induction f as [|f IH]; intros n tail rest; simpl; [done|].
  destruct (n <? 10); [done|]. by rewrite IH.
Qed.

Lemma to_string_digits_head f :
  forall n tail,
    0 <= n -> (0 < f)%nat \/ Cli.starts_with_digit tail = true ->
    Cli.starts_with_digit (Cli.to_string_digits f n tail) = true.
Proof.
  induction f as [|f IH]; intros n tail Hn Hf; simpl.
  - destruct Hf as [?|?]; [lia|done].
  - assert (Cli.is_digit (Cli.digit_char (n mod 10)) = true) as Hd
      by (apply digit_char_ok; pose proof (Z.mod_pos_bound n 10); lia).
    destruct (n <? 10); [done|]. apply IH; [|by right].
    apply Z.div_pos; lia.
Qed.

Lemma read_digits_to_string f :
  forall n tail,
    0 <= n < 10 ^ Z.of_nat f ->
    exists k, 0 <= k /\ forall acc,
      Cli.read_digits (Cli.to_string_digits f n tail) acc
      = Cli.read_digits tail (acc * 10 ^ k + n).
Proof.
  induction f as [|f IH]; intros n tail Hn.
  - exists 0. split; [done|]. intros acc. simpl in *.
    replace n with 0 by lia. f_equal. lia.
  - rewrite Nat2Z.inj_succ, Z.pow_succ_r in Hn by lia. simpl.
    pose proof (Z.mod_pos_bound n 10) as Hmod.
    destruct (digit_char_ok (n mod 10)) as [Hd Hv]; [lia|].
    destruct (n <? 10) eqn:E.
    + apply Z.ltb_lt in E. exists 1. split; [done|]. intros acc. simpl.
      rewrite Hd, Hv, Z.mod_small by lia. f_equal. lia.
    + apply Z.ltb_ge in E.
      destruct (IH (n / 10) (String (Cli.digit_char (n mod 10)) tail)) as (k & Hk & H).
      { split; [apply Z.div_pos; lia|]. apply Z.div_lt_upper_bound; lia. }
      exists (k + 1). split; [lia|]. intros acc. rewrite H. simpl.
      rewrite Hd, Hv. f_equal. rewrite Z.pow_add_r by lia.
      pose proof (Z.div_mod n 10). lia.
Qed.

Lemma read_digits_stop rest acc :
  Cli.starts_with_digit rest = false -> Cli.read_digits rest acc = acc.
Proof. destruct rest as [|c r]; simpl; [done|]. by intros ->. Qed.

Lemma read_digits_to_string_full n rest :
  0 <= n < 10 ^ 10 -> Cli.starts_with_digit rest = false ->
  exists c s, Cli.to_string n +:+ rest = String c s
              /\ Cli.is_digit c = true
              /\ Cli.read_digits (String c s) 0 = n.
Proof.
  intros Hn Hrest. unfold Cli.to_string.
  rewrite to_string_digits_append, append_empty_l.
  assert (Cli.starts_with_digit (Cli.to_string_digits 10 n rest) = true) as Hhead
    by (apply to_string_digits_head; [lia|left; lia]).
  destruct (read_digits_to_string 10 n rest) as (k & _ & H);
    [change (Z.of_nat 10) with 10; lia|].
  specialize (H 0). rewrite (read_digits_stop rest) in H by done.
  destruct (Cli.to_string_digits 10 n rest) as [|c s]; [done|].
  exists c, s. split_and!; [done|done|lia].
Qed.

(** X17. [stoi] reads back what [to_string] writes: for an [int] that is
    not negative the decimal text parses to the number, also when
    followed by anything that does not start with a digit (the tail is
    ignored), and with a minus sign in front it parses to the
    negative. *)
Theorem stoi_to_string (n : Z) (rest : string) :
  0 <= n <= 2 ^ 31 - 1 -> Cli.starts_with_digit rest = false ->
  Cli.stoi (Cli.to_string n +:+ rest) = inr n
  /\ Cli.stoi ("-" +:+ Cli.to_string n +:+ rest) = inr (- n).
Proof.
  intros Hn Hrest.
  destruct (read_digits_to_string_full n rest) as (c & s & -> & Hc & Hv); [lia|done|].
  split.
  - rewrite stoi_digit_head, Hv by done.
    destruct (n <? - 2 ^ 31) eqn:E1; [apply Z.ltb_lt in E1; lia|].
    destruct (2 ^ 31 - 1 <? n) eqn:E2; [apply Z.ltb_lt in E2; lia|]. done.
  - change ("-" +:+ String c s) with (String "-" (String c s)).
    rewrite stoi_minus_digit_head, Hv by done.
    destruct (- n <? - 2 ^ 31) eqn:E1; [apply Z.ltb_lt in E1; lia|].
    destruct (2 ^ 31 - 1 <? - n) eqn:E2; [apply Z.ltb_lt in E2; lia|]. done.
Qed.

Lemma stoi_to_string_witness :
  Cli.stoi (Cli.to_string 12 +:+ "x") = inr 12
  /\ Cli.stoi ("-" +:+ Cli.to_string 12 +:+ "x") = inr (- 12).
Proof.
  apply (stoi_to_string 12 "x").
  - lia.
  - reflexivity.
Defined.

(** ** The command handlers on words *)

Lemma pairs_ind (P : list string -> Prop) :
  P [] -> (forall w, P [w]) ->
  (forall wi wj rest, P rest -> P (wi :: wj :: rest)) ->
  forall l, P l.
Proof.
  intros H0 H1 H2 l.
  assert (P l /\ forall w, P (w :: l)) as [? _]; [|done].
  induction l as [|a l [IH1 IH2]]; [by split|]. split; [apply IH2|].
  intros w. by apply H2.
Qed.

Lemma flag_loop_parse value args :
  forall game,
    Cli.flag_loop game args value
    = match Cli.parse_places args with
      | inr places => Cli.Returns (flag game places value)
      | inl e => Cli.Throws e
      end.
Proof.
  induction args as [|w|wi wj rest IH] using pairs_ind; intros game; [done..|].
  simpl. destruct (Cli.stoi wi) as [e|i]; [done|].
  destruct (Cli.stoi wj) as [e|j]; [done|].
  rewrite IH. by destruct (Cli.parse_places rest).
Qed.

Lemma reveal_loop_parse args :
  forall game places,
    Cli.parse_places args = inr places ->
    Cli.reveal_loop game args = Cli.lift (reveal game places).
Proof.
  induction args as [|w|wi wj rest IH] using pairs_ind; intros game places H;
    simpl in H; [by simplify_eq..|].
  simpl. destruct (Cli.stoi wi) as [e|i]; [done|].
  destruct (Cli.stoi wj) as [e|j]; [done|].
  destruct (Cli.parse_places rest) as [e|places'] eqn:E; [done|]. simplify_eq.
  simpl. destruct (reveal_step game i j) as [[m g]|f]; [|done]. simpl.
  destruct m; simpl; try done; by apply IH.
Qed.

(** X18. A [flag] or [unflag] command with fewer than three words or an
    even number of words is turned down and the game stays as it was.
    Otherwise the words after the verb are read pair by pair with [stoi]:
    if they all are numbers the command returns [true] and the game is
    the one that [try_set_flag] produces over the pairs in order, and if
    one is not, the exception of the first such word leaves the
    handler. *)
Theorem flag_command (game : Game) (command : list string) (value : bool) :
  ((length command < 3)%nat \/ (length command mod 2 = 0)%nat ->
   Cli.flag game command value = Cli.Returns (false, game))
  /\ ((3 <= length command)%nat -> (length command mod 2 = 1)%nat ->
      Cli.flag game command value
      = match Cli.parse_places (tail command) with
        | inr places => Cli.Returns (true, flag game places value)
        | inl e => Cli.Throws e
        end).
Proof.
  unfold Cli.flag. split.
  - intros [H|H].
    + apply Nat.ltb_lt in H. by rewrite H.
    + apply Nat.eqb_eq in H. by rewrite H, orb_true_r.
  - intros H3 H1.
    destruct (length command <? 3)%nat eqn:E1; [apply Nat.ltb_lt in E1; lia|].
    destruct (length command mod 2 =? 0)%nat eqn:E2; [apply Nat.eqb_eq in E2; lia|].
    simpl. rewrite flag_loop_parse. by destruct (Cli.parse_places (tail command)).
Qed.

Lemma flag_command_witness :
  Cli.flag (strip true) ["flag"; "0"; "1"] true
  = Cli.Returns (true, flag (strip true) [(0, 1)] true).
Proof.
  apply (proj2 (flag_command (strip true) ["flag"; "0"; "1"] true)).
  - simpl. lia.
  - reflexivity.
Defined.

(** X19. A [reveal] command with fewer than three words or an even
    number of words is turned down and the game stays as it was. When
    the words after the verb all are numbers, the command does what the
    reveals of the pairs in order do, up to the first losing move, and
    returns [true]; an engine fault comes out as it is. *)
Theorem reveal_command (game : Game) (command : list string) (places : list (Z * Z)) :
  ((length command < 3)%nat \/ (length command mod 2 = 0)%nat ->
   Cli.reveal game command = Cli.Returns (false, game))
  /\ ((3 <= length command)%nat -> (length command mod 2 = 1)%nat ->
      Cli.parse_places (tail command) = inr places ->
      Cli.reveal game command
      = match reveal game places with
        | Ok g => Cli.Returns (true, g)
        | Err f => Cli.Faults f
        end).
Proof.
  unfold Cli.reveal. split.
  - intros [H|H].
    + apply Nat.ltb_lt in H. by rewrite H.
    + apply Nat.eqb_eq in H. by rewrite H, orb_true_r.
  - intros H3 H1 Hp.
    destruct (length command <? 3)%nat eqn:E1; [apply Nat.ltb_lt in E1; lia|].
    destruct (length command mod 2 =? 0)%nat eqn:E2; [apply Nat.eqb_eq in E2; lia|].
    simpl. rewrite (reveal_loop_parse _ _ _ Hp). by destruct (reveal game places).
Qed.

Lemma reveal_command_witness :
  Cli.reveal (strip true) ["reveal"; "0"; "0"; "0"; "1"]
  = match reveal (strip true) [(0, 0); (0, 1)] with
    | Ok g => Cli.Returns (true, g)
    | Err f => Cli.Faults f
    end.
Proof.
  apply (proj2 (reveal_command (strip true) ["reveal"; "0"; "0"; "0"; "1"]
                               [(0, 0); (0, 1)])).
  - simpl. lia.
  - reflexivity.
  - reflexivity.
Defined.

(** ** Reading commands *)

Lemma bind_Returns {A B} (m : Cli.outcome A) (k : A -> Cli.outcome B) b :
  (a ← m; k a) = Cli.Returns b <-> exists a, m = Cli.Returns a /\ k a = Cli.Returns b.
Proof.
  destruct m as [a|e| | |f]; simpl; split; try done; try (by intros (? & [=] & _)).
  - eauto.
  - by intros (a' & [= ->] & H).
Qed.

Lemma bind_Faults {A B} (m : Cli.outcome A) (k : A -> Cli.outcome B) f :
  (a ← m; k a) = Cli.Faults f ->
  m = Cli.Faults f \/ exists a, m = Cli.Returns a /\ k a = Cli.Faults f.
Proof.
  destruct m as [a|e| | |f']; simpl; try done.
  - intros H. right. exists a. by split.
  - intros [= ->]. by left.
Qed.

Lemma flag_returns game command value r :
  Cli.flag game command value = Cli.Returns r ->
  exists places, r.2 = flag game places value.
Proof.
  unfold Cli.flag. destruct (_ || _).
  - intros [= <-]. by exists [].
  - intros (g & H & [= <-])%bind_Returns. rewrite flag_loop_parse in H.
    destruct (Cli.parse_places (tail command)) as [e|places]; [done|].
    simplify_eq. by exists places.
Qed.

Lemma reveal_loop_returns args :
  forall game g,
    Cli.reveal_loop game args = Cli.Returns g -> exists places, reveal game places = Ok g.
Proof.
  induction args as [|w|wi wj rest IH] using pairs_ind; intros game g H; simpl in H.
  - simplify_eq. by exists [].
  - simplify_eq. by exists [].
  - destruct (Cli.stoi wi) as [e|i]; [done|].
    destruct (Cli.stoi wj) as [e|j]; [done|].
    destruct (reveal_step game i j) as [[m g1]|f] eqn:E; [|done].
    destruct m;
      try (destruct (IH _ _ H) as [places Hp]; exists ((i, j) :: places);
           simpl; by rewrite E).
    simplify_eq. exists [(i, j)]. simpl. by rewrite E.
Qed.

Lemma reveal_returns game command r :
  Cli.reveal game command = Cli.Returns r -> exists places, reveal game places = Ok r.2.
Proof.
  unfold Cli.reveal. destruct (_ || _).
  - intros [= <-]. by exists [].
  - intros (g & H & [= <-])%bind_Returns. by apply reveal_loop_returns in H.
Qed.

Lemma reveal_loop_faults args :
  forall game f,
    game_inv game -> Cli.reveal_loop game args = Cli.Faults f -> f = OutOfRange.
Proof.
  induction args as [|w|wi wj rest IH] using pairs_ind; intros game f Hg H; simpl in H;
    [done..|].
  destruct (Cli.stoi wi) as [e|i]; [done|].
  destruct (Cli.stoi wj) as [e|j]; [done|].
  destruct (reveal_step_returns game i j (inv_wf _ Hg))
    as [(m & g1 & E)|(E & _)]; rewrite E in H.
  - destruct (reveal_step_inv _ _ _ _ _ E Hg) as [Hg1 _].
    destruct m; try done; by apply (IH g1).
  - by simplify_eq.
Qed.

(** What a handler of [table] can do to the game when it returns, and
    how it can fault. *)
Lemma table_returns verb option game command r :
  Cli.table verb = Some option -> option game command = Cli.Returns r ->
  exists cmd, run_command game cmd = Ok r.2.
Proof.
  unfold Cli.table. intros Ht H.
  repeat (match type of Ht with
          | (if ?b then _ else _) = _ => destruct b
          end); simplify_eq.
  - apply flag_returns in H as [places ->]. by exists (CmdFlag places).
  - apply flag_returns in H as [places ->]. by exists (CmdUnflag places).
  - apply reveal_returns in H as [places H]. by exists (CmdReveal places).
  - by exists CmdHelp.
  - by exists CmdRestart.
  - by exists CmdBombsLeft.
Qed.

Lemma table_faults verb option game command f :
  Cli.table verb = Some option -> game_inv game ->
  option game command = Cli.Faults f -> f = OutOfRange.
Proof.
  unfold Cli.table. intros Ht Hg H.
  repeat (match type of Ht with
          | (if ?b then _ else _) = _ => destruct b
          end); simplify_eq.
  - unfold Cli.flag in H. destruct (_ || _); [done|].
    apply bind_Faults in H as [H|(? & _ & ?)]; [|done].
    rewrite flag_loop_parse in H. by destruct (Cli.parse_places _).
  - unfold Cli.flag in H. destruct (_ || _); [done|].
    apply bind_Faults in H as [H|(? & _ & ?)]; [|done].
    rewrite flag_loop_parse in H. by destruct (Cli.parse_places _).
  - unfold Cli.reveal in H. destruct (_ || _); [done|].
    apply bind_Faults in H as [H|(? & _ & ?)]; [|done].
    by apply reveal_loop_faults in H.
Qed.

Lemma accept_input_returns lines :
  forall game r,
    Cli.accept_input lines game = Cli.Returns r ->
    (exists cmd, run_command game cmd = Ok r.1.2)
    /\ (length r.2 < length lines)%nat.
Proof.
  induction lines as [|ln rest IH]; intros game r H; simpl in H; [done|].
  destruct (Cli.to_command ln) as [|verb args].
  { destruct (IH _ _ H) as [? ?]. split; [done|]. simpl. lia. }
  destruct (Cli.table verb) as [option|] eqn:Ht.
  - apply bind_Returns in H as (r' & H & [= <-]). simpl.
    split; [|lia]. by eapply table_returns.
  - simplify_eq. simpl. split; [|lia]. by exists CmdHelp.
Qed.

Lemma accept_input_faults lines :
  forall game f,
    game_inv game -> Cli.accept_input lines game = Cli.Faults f -> f = OutOfRange.
Proof.
  induction lines as [|ln rest IH]; intros game f Hg H; simpl in H; [done|].
  destruct (Cli.to_command ln) as [|verb args]; [by eapply IH|].
  destruct (Cli.table verb) as [option|] eqn:Ht; [|done].
  apply bind_Faults in H as [H|(? & _ & ?)]; [|done].
  by eapply table_faults.
Qed.

(** X20. [accept_input] passes over lines of whitespace: such lines in
    front of the input change nothing, and when only such lines are left
    the call never returns. A line whose first word is no verb of
    [table] is consumed, answered with [false], and leaves the game as
    it was. *)
Theorem accept_input_lines (blanks lines : list string) (ln : string) (game : Game) :
  Forall (fun l => Cli.all_space l = true) blanks ->
  Cli.accept_input (blanks ++ lines) game = Cli.accept_input lines game
  /\ Cli.accept_input blanks game = Cli.Hangs
  /\ (forall verb args,
        Cli.to_command ln = verb :: args -> Cli.table verb = None ->
        Cli.accept_input (blanks ++ ln :: lines) game = Cli.Returns (false, game, lines)).
Proof.
  intros Hb.
  assert (forall ls, Cli.accept_input (blanks ++ ls) game = Cli.accept_input ls game)
    as Hskip.
  { intros ls. induction Hb as [|b bs Hb _ IH]; [done|]. simpl.
    apply to_command_nil_iff in Hb. by rewrite Hb. }
  split_and!.
  - apply Hskip.
  - rewrite <- (app_nil_r blanks) at 1. by rewrite Hskip.
  - intros verb args Hc Ht. rewrite Hskip. simpl. by rewrite Hc, Ht.
Qed.

Lemma accept_input_lines_witness :
  Cli.accept_input ([""; "   "] ++ ["reveal 0 0"]) (strip true)
  = Cli.accept_input ["reveal 0 0"] (strip true).
Proof.
  apply (accept_input_lines [""; "   "] ["reveal 0 0"] "" (strip true)).
  by repeat constructor.
Defined.

(** ** The loop of [main] *)

Lemma main_loop_returns n :
  forall lines g g',
    reachable g -> Cli.main_loop n lines g = Cli.Returns g' ->
    reachable g' /\ state g' = OVER.
Proof.
  induction n as [|n IH]; intros lines g g' Hg H; simpl in H; [done|].
  destruct (state g) eqn:Hs; [by simplify_eq|].
  apply bind_Returns in H as (r & Hr & H). unfold Cli.prompt in Hr.
  apply accept_input_returns in Hr as [[cmd Hcmd] _].
  apply (IH _ _ _) in H; [done|].
  apply (reach_turn g cmd); [done..|]. unfold turn. by rewrite Hcmd.
Qed.

Lemma main_loop_fuel n :
  forall lines g,
    reachable g -> (length lines < n)%nat ->
    Cli.main_loop n lines g <> Cli.Faults OutOfFuel.
Proof.
  induction n as [|n IH]; intros lines g Hg Hn; [lia|]. simpl.
  destruct (state g) eqn:Hs; [done|]. unfold Cli.prompt.
  destruct (Cli.accept_input lines g) as [r|e| | |f] eqn:Hr; simpl; try done.
  - pose proof Hr as [[cmd Hcmd] Hlen]%accept_input_returns.
    apply IH; [|lia].
    apply (reach_turn g cmd); [done..|]. unfold turn. by rewrite Hcmd.
  - apply accept_input_faults in Hr; [|by apply reachable_inv]. by subst.
Qed.

(** X21. Started on a game of a run, the loop of [main] never needs more
    rounds than there are lines of input. When it returns, the game it
    returns is a state of a run of the engine (every line did what a
    sequence of [flag], [unflag], [reveal] or [restart] calls does), its
    state is [OVER], and it passes the win test or shows a revealed
    mine. *)
Theorem main_plays_the_game (lines : list string) (g : Game) :
  reachable g ->
  Cli.main lines g <> Cli.Faults OutOfFuel
  /\ (forall g',
        Cli.main lines g = Cli.Returns g' ->
        reachable g' /\ state g' = OVER
        /\ (is_won g' = true
            \/ exists x y, inside (grid g') x y
                           /\ revealed_bomb (cell_at (grid g') x y) = true)).
Proof.
  intros Hg. split.
  - apply main_loop_fuel; [done|lia].
  - intros g' H. apply main_loop_returns in H as [Hg' Hs]; [|done].
    split_and!; [done..|]. destruct (reachable_run_inv _ Hg') as [_ Hover].
    by apply Hover.
Qed.

Lemma main_plays_the_game_witness :
  Cli.main ["reveal 0 0"; ""; "bogus"; "reveal 0 1"] (strip true)
  <> Cli.Faults OutOfFuel.
Proof.
  apply (main_plays_the_game ["reveal 0 0"; ""; "bogus"; "reveal 0 1"] (strip true)).
  apply reach_new; lia.
Defined.

(** ** What is written for a game *)

Lemma count_neighbors_range grid i j p : 0 <= count_neighbors grid i j p <= 8.
Proof.
  unfold count_neighbors. destruct (outside grid i j); [lia|].
  rewrite count_neighbors_fold by (simpl; lia).
  assert (sum_list_with (fun d => Nat.b2n (neighbor_hit grid i j p d)) dir8 <= 8)%nat.
  { change 8%nat with (length dir8 * 1)%nat. apply sum_list_with_bound.
    apply Forall_forall. intros d _. destruct (neighbor_hit _ _ _ _ _); simpl; lia. }
  lia.
Qed.

Lemma to_string_one_digit n :
  0 <= n <= 9 -> Cli.to_string n = String (Cli.digit_char n) EmptyString.
Proof.
  intros Hn. unfold Cli.to_string. simpl.
  destruct (n <? 10) eqn:E; [|apply Z.ltb_ge in E; lia].
  by rewrite Z.mod_small by lia.
Qed.

Lemma glyph_number_not_bomb n : Cli.glyph_number n <> Cli.glyph_bomb.
Proof.
  unfold Cli.glyph_number. generalize (Cli.to_string n). intros t H.
  cbv in H. discriminate H.
Qed.

Lemma glyphs_not_bomb :
  Cli.glyph_flag <> Cli.glyph_bomb /\ Cli.glyph_hidden <> Cli.glyph_bomb
  /\ Cli.glyph_blank <> Cli.glyph_bomb.
Proof. split_and!; intros H; cbv in H; discriminate H. Qed.

(** X22. While a game of a run is [ACTIVE] and not won, what [print]
    writes for a cell of the grid tells nothing about what a hidden cell
    holds: the flag glyph for a flagged cell, the dot for any other
    hidden cell, and for a revealed cell the blank or the number of
    mines around it, which is a single digit from 1 to 8. The mine glyph
    is never written. *)
Theorem print_hides_mines (g : Game) (i j : Z) :
  reachable g -> state g = ACTIVE -> is_won g = false -> inside (grid g) i j ->
  Cli.print g i j
  = (if is_flagged (cell_at (grid g) i j) then Cli.glyph_flag
     else if negb (is_revealed (cell_at (grid g) i j)) then Cli.glyph_hidden
     else if count_bomb_neighbors (grid g) i j =? 0 then Cli.glyph_blank
     else Cli.esc +:+ "[43;30;1m"
          +:+ String (Cli.digit_char (count_bomb_neighbors (grid g) i j)) EmptyString
          +:+ Cli.esc +:+ "[0m")
  /\ 0 <= count_bomb_neighbors (grid g) i j <= 8
  /\ Cli.print g i j <> Cli.glyph_bomb.
Proof.
  intros Hreach Hs Hw Hin.
  destruct (reachable_run_inv _ Hreach) as [[_ Hnb _] _].
  pose proof (count_neighbors_range (grid g) i j is_bomb) as Hrange.
  fold (count_bomb_neighbors (grid g) i j) in Hrange.
  destruct glyphs_not_bomb as (Hgf & Hgh & Hgb).
  unfold Cli.print. rewrite Hw, Hs. simpl.
  destruct (is_flagged (cell_at (grid g) i j)); simpl; [split_and!; (done || lia)|].
  destruct (is_revealed (cell_at (grid g) i j)) eqn:Hr; simpl; [|split_and!; (done || lia)].
  rewrite (Hnb Hs i j Hin Hr).
  destruct (count_bomb_neighbors (grid g) i j =? 0) eqn:E; [split_and!; (done || lia)|].
  apply Z.eqb_neq in E. split_and!; [|lia|lia|apply glyph_number_not_bomb].
  unfold Cli.glyph_number. by rewrite to_string_one_digit by lia.
Qed.

Lemma print_hides_mines_witness :
  Cli.print (strip true) 0 1 <> Cli.glyph_bomb.
Proof.
  apply (print_hides_mines (strip true) 0 1).
  - apply reach_new; lia.
  - reflexivity.
  - reflexivity.
  - by vm_compute.
Defined.

Lemma no_space_to_string_digits f :
  forall n tail,
    0 <= n -> Cli.no_space tail = true ->
    Cli.no_space (Cli.to_string_digits f n tail) = true.
Proof.
  induction f as [|f IH]; intros n tail Hn Ht; simpl; [done|].
  assert (Cli.no_space (String (Cli.digit_char (n mod 10)) tail) = true) as Hd.
  { simpl. rewrite Ht, andb_true_r. apply negb_true_iff, is_digit_no_space.
    apply digit_char_ok. pose proof (Z.mod_pos_bound n 10). lia. }
  destruct (n <? 10); [done|]. apply IH; [|done]. apply Z.div_pos; lia.
Qed.

Lemma is_word_to_string n : 0 <= n -> Cli.is_word (Cli.to_string n) = true.
Proof.
  intros Hn. unfold Cli.to_string.
  pose proof (to_string_digits_head 10 n EmptyString Hn) as Hh.
  pose proof (no_space_to_string_digits 10 n EmptyString Hn) as Hs.
  destruct (Cli.to_string_digits 10 n EmptyString); [|by apply Hs].
  simpl in Hh. assert (false = true); [apply Hh; left; lia|done].
Qed.

Lemma stoi_to_string_plain n :
  0 <= n <= 2 ^ 31 - 1 -> Cli.stoi (Cli.to_string n) = inr n.
Proof.
  intros Hn. rewrite <- (append_empty_r (Cli.to_string n)).
  destruct (read_digits_to_string_full n EmptyString) as (c & s & -> & Hc & Hv);
    [lia|done|].
  rewrite stoi_digit_head, Hv by done.
  destruct (n <? - 2 ^ 31) eqn:E1; [apply Z.ltb_lt in E1; lia|].
  destruct (2 ^ 31 - 1 <? n) eqn:E2; [apply Z.ltb_lt in E2; lia|]. done.
Qed.

Lemma concat_strings_cons x l :
  Cli.concat_strings (x :: l) = x +:+ Cli.concat_strings l.
Proof. done. Qed.

Lemma to_command_spaced ws :
  Forall (fun w => Cli.is_word w = true) ws ->
  Cli.to_command (Cli.concat_strings ((fun w => w +:+ " ") <$> ws)) = ws.
Proof.
  induction 1 as [|w ws Hw _ IH]; [done|].
  rewrite fmap_cons, concat_strings_cons.
  rewrite append_assoc, to_command_word; [|done|right; eauto].
  change (" " +:+ ?x) with (String " " x). rewrite to_command_space by done.
  by rewrite IH.
Qed.

(** X23. The first line [operator<<] writes for a game splits, with
    [to_command], into one word per column, and [stoi] reads the words as
    the column indices 0, 1, ... in order: the labels are the numbers a
    command has to give. *)
Theorem header_labels (g : Game) :
  Z.of_nat (cols (grid g)) <= 2 ^ 31 ->
  Cli.to_command (Cli.show_header g)
  = (fun i => Cli.to_string (Z.of_nat i)) <$> seq 0 (cols (grid g))
  /\ Cli.stoi <$> Cli.to_command (Cli.show_header g)
     = (fun i => inr (Z.of_nat i)) <$> seq 0 (cols (grid g)).
Proof.
  intros Hc.
  assert (Cli.to_command (Cli.show_header g)
          = (fun i => Cli.to_string (Z.of_nat i)) <$> seq 0 (cols (grid g))) as H.
  { unfold Cli.show_header.
    change ("   " +:+ ?x) with (String " " (String " " (String " " x))).
    rewrite !to_command_space by done.
    rewrite (list_fmap_compose (fun i => Cli.to_string (Z.of_nat i))
                               (fun w => w +:+ " ")).
    apply to_command_spaced. apply Forall_fmap, Forall_forall.
    intros i _. simpl. apply is_word_to_string. lia. }
  split; [done|]. rewrite H, <- list_fmap_compose.
  apply list_fmap_ext. intros k i Hi. simpl.
  apply lookup_seq in Hi as [-> Hi]. apply stoi_to_string_plain. lia.
Qed.

Lemma header_labels_witness :
  Cli.stoi <$> Cli.to_command (Cli.show_header (strip true))
  = (fun i => inr (Z.of_nat i)) <$> seq 0 (cols (grid (strip true))).
Proof.
  apply (header_labels (strip true)). by vm_compute.
Defined.

(** X24. Every further line [operator<<] writes starts with the index of
    its row: the first word [to_command] finds in the line of row [i] is
    the decimal text of [i], which [stoi] reads as [i]. *)
Theorem row_labels (g : Game) (i : nat) :
  Z.of_nat i <= 2 ^ 31 - 1 ->
  exists words,
    Cli.to_command (Cli.show_row g i) = Cli.to_string (Z.of_nat i) :: words
    /\ Cli.stoi (Cli.to_string (Z.of_nat i)) = inr (Z.of_nat i).
Proof.
  intros Hi. eexists. split; [|apply stoi_to_string_plain; lia].
  unfold Cli.show_row. apply to_command_word; [apply is_word_to_string; lia|].
  right. by exists " "%char, (String " " (Cli.concat_strings
    ((fun j => Cli.print g (Z.of_nat i) (Z.of_nat j) +:+ " ")
       <$> seq 0 (length (grid g !!! i))))).
Qed.

Lemma row_labels_witness :
  exists words,
    Cli.to_command (Cli.show_row (strip true) 0) = Cli.to_string 0 :: words
    /\ Cli.stoi (Cli.to_string 0) = inr 0.
Proof.
  apply (row_labels (strip true) 0). by vm_compute.
Defined.

Lemma try_set_flag_frame_witness :
  try_set_flag (strip true) 0 3 true = (OutBounds, strip true).
Proof.
  destruct (try_set_flag_frame (strip true) 0 3 true) as (H & _).
  apply H. reflexivity.
Defined.

Lemma count_neighbors_counts_witness :
  count_neighbors (grid (strip true)) 0 5 is_bomb = 0.
Proof.
  destruct (count_neighbors_counts (grid (strip true)) 0 5 is_bomb) as (_ & H & _).
  apply H. reflexivity.
Defined.
